(** * Temporal context intelligence: causality, memory tiers, propagation

    A shallow embedding of the three services documented in the
    repository (CausalityService, MemoryManagerService,
    PropagationService) together with the [context_snapshots] table
    they work on, and the properties of these services.

    Conventions of the embedding:
    - a JavaScript [Date] is its time value, an integer number of
      milliseconds ([Z]); [Date.now()] and [datetime('now')] become an
      explicit [now] argument;
    - a quantity of hours obtained by dividing milliseconds by
      [1000 * 60 * 60] is an exact rational ([Q]); the scores 0.1 .. 1.0
      are rationals too;
    - [null] is [None]; an optional facet ([causality?], [memory?]) is an
      [option];
    - the repository is the table itself, a list of rows whose [id]
      column is the primary key. *)

From Stdlib Require Import ZArith QArith Lia Ascii String.
From stdpp Require Import base decidable option list sorting strings gmap.

Local Open Scope Z_scope.

(** ** Data model *)

Inductive ActionType : Type :=
  | conversation
  | decision
  | file_edit
  | tool_use
  | research.

Inductive MemoryTier : Type :=
  | ACTIVE
  | RECENT
  | ARCHIVED
  | EXPIRED.

#[global] Instance ActionType_eq_dec : EqDecision ActionType.
Proof. solve_decision. Defined.

#[global] Instance MemoryTier_eq_dec : EqDecision MemoryTier.
Proof. solve_decision. Defined.

(** Layer 1 facet: [action_type], [caused_by], [rationale]. *)
Record Causality : Type := mkCausality {
  actionType : option ActionType;
  causedBy : option string;
  rationale : option string
}.

(** Layer 2 facet: [memory_tier], [last_accessed], [access_count]. *)
Record Memory : Type := mkMemory {
  tier : MemoryTier;
  lastAccessed : option Z;
  accessCount : Z
}.

(** Layer 3 facet: [prediction_score], [last_predicted],
    [propagation_reason]. *)
Record Propagation : Type := mkPropagation {
  predictionScore : option Q;
  lastPredicted : option Z;
  propagationReasons : list string
}.

Record ContextSnapshot : Type := mkSnapshot {
  id : string;
  project : string;
  summary : string;
  timestamp : Z;
  causality : option Causality;
  memory : option Memory;
  propagation : option Propagation
}.

(** [snapshot.causality?.causedBy], [snapshot.causality?.actionType],
    [context.memory?.tier] and the like: optional chaining. *)
Definition snapshot_causedBy (s : ContextSnapshot) : option string :=
  c ← causality s; causedBy c.

Definition snapshot_actionType (s : ContextSnapshot) : option ActionType :=
  c ← causality s; actionType c.

Definition snapshot_tier (s : ContextSnapshot) : option MemoryTier :=
  tier <$> memory s.

Definition snapshot_lastAccessed (s : ContextSnapshot) : option Z :=
  m ← memory s; lastAccessed m.

Definition snapshot_accessCount (s : ContextSnapshot) : option Z :=
  accessCount <$> memory s.

Definition snapshot_lastPredicted (s : ContextSnapshot) : option Z :=
  p ← propagation s; lastPredicted p.

(** ** Time *)

Definition msPerHour : positive := 3600000.

(** [(later - earlier) / (1000 * 60 * 60)]. *)
Definition hoursBetween (earlier later : Z) : Q := (later - earlier) # msPerHour.

(** A whole number of hours as a rational, for the thresholds. *)
Definition hours (n : Z) : Q := inject_Z n.

(** Boolean comparisons on rationals, as the [if]s of the source use them. *)
Definition Qltb (a b : Q) : bool := (Qnum a * QDen b <? Qnum b * QDen a)%Z.

Definition Qgeb (a b : Q) : bool := (Qnum b * QDen a <=? Qnum a * QDen b)%Z.

(** ** The repository: the [context_snapshots] table *)

Abbreviation Table := (list ContextSnapshot).

Module Repository.

(** [SELECT * FROM context_snapshots WHERE id = ?], first row or [null]. *)
Definition findById (repo : Table) (snapshotId : string) : option ContextSnapshot :=
  find (fun r => bool_decide (id r = snapshotId)) repo.

(** The keys of the table. *)
Definition idsOf (repo : Table) : gset string := list_to_set (id <$> repo).

(** [LIMIT ?], absent when the caller gives no limit. *)
Definition take_limit {A : Type} (limit : option nat) (l : list A) : list A :=
  match limit with
  | Some n => take n l
  | None => l
  end.

(** [ORDER BY timestamp DESC]. *)
Definition newest_first : relation ContextSnapshot :=
  fun a b => timestamp b <= timestamp a.

#[global] Instance newest_first_dec : RelDecision newest_first.
Proof. intros a b. unfold newest_first. apply _. Defined.

(** [SELECT * FROM context_snapshots WHERE project = ?
     ORDER BY timestamp DESC LIMIT ?]. *)
Definition findByProject (repo : Table) (p : string) (limit : option nat) : Table :=
  take_limit limit (merge_sort newest_first (filter (fun r => project r = p) repo)).

(** [save(snapshot)]: insert, or replace the row that has the same id. *)
Definition save (repo : Table) (s : ContextSnapshot) : Table :=
  if existsb (fun r => bool_decide (id r = id s)) repo
  then map (fun r => if bool_decide (id r = id s) then s else r) repo
  else repo ++ [s].

(** [last_accessed ASC NULLS FIRST]. *)
Definition lastAccessed_le (a b : option Z) : Prop :=
  match a, b with
  | None, _ => True
  | Some _, None => False
  | Some x, Some y => x <= y
  end.

#[global] Instance lastAccessed_le_dec : RelDecision lastAccessed_le.
Proof. intros [x|] [y|]; simpl; apply _. Defined.

Definition oldest_access_first : relation ContextSnapshot :=
  fun a b => lastAccessed_le (snapshot_lastAccessed a) (snapshot_lastAccessed b).

#[global] Instance oldest_access_first_dec : RelDecision oldest_access_first.
Proof. intros a b. unfold oldest_access_first. apply _. Defined.

(** The rows selected by
    [WHERE memory_tier = 'expired' ORDER BY last_accessed ASC NULLS FIRST LIMIT ?]. *)
Definition expiredForPruning (repo : Table) (limit : option nat) : Table :=
  take_limit limit
    (merge_sort oldest_access_first
       (filter (fun r => snapshot_tier r = Some EXPIRED) repo)).

(** [DELETE FROM context_snapshots] of the rows with the given keys. *)
Definition deleteByIds (repo : Table) (ids : list string) : Table :=
  filter (fun r => id r ∉ ids) repo.

End Repository.

(** ** Layer 1: CausalityService *)

Module Causality.
Import Repository.

Record CausalChainNode : Type := mkNode {
  snapshot : ContextSnapshot;
  depth : nat;
  node_causedBy : option string   (* the [causedBy] field of the node *)
}.

(** Truthiness of a JavaScript string: every string but the empty one. *)
Definition truthy (s : string) : bool := negb (bool_decide (s = EmptyString)).

(** [x || null] on a string that may be [null]. *)
Definition or_null (x : option string) : option string :=
  match x with
  | Some s => if truthy s then Some s else None
  | None => None
  end.

(** The [while] loop of [buildCausalChain]; [fuel] bounds the number of
    iterations and [None] means that the bound was reached. *)
Fixpoint chain_loop (fuel : nat) (repo : Table) (chain : list CausalChainNode)
    (visited : gset string) (currentId : option string) (d : nat)
    : option (list CausalChainNode) :=
  match fuel with
  | O => None
  | S fuel' =>
      match currentId with
      | None => Some chain
      | Some cid =>
          if truthy cid && negb (bool_decide (cid ∈ visited)) then
            match findById repo cid with
            | None => Some chain                       (* break *)
            | Some snap =>
                let parent := or_null (snapshot_causedBy snap) in
                chain_loop fuel' repo
                  (mkNode snap d parent :: chain)      (* chain.unshift *)
                  ({[cid]} ∪ visited)                  (* visited.add *)
                  parent
                  (S d)                                (* depth++ *)
            end
          else Some chain
      end
  end.

(** [buildCausalChain(snapshotId)] with a given iteration bound. *)
Definition buildCausalChain_fuel (fuel : nat) (repo : Table) (snapshotId : string)
    : option (list CausalChainNode) :=
  chain_loop fuel repo [] ∅ (Some snapshotId) 0%nat.

(** [buildCausalChain(snapshotId)]: one more iteration than the table has
    rows is always enough, as proved below. *)
Definition buildCausalChain (repo : Table) (snapshotId : string)
    : option (list CausalChainNode) :=
  buildCausalChain_fuel (S (length repo)) repo snapshotId.

(** [backward_chain repo i path]: following [causedBy] from the id [i]
    resolves every link and ends at a root cause; [path] lists the
    snapshots met, the one with id [i] first and the root cause last. *)
Inductive backward_chain (repo : Table) : string -> list ContextSnapshot -> Prop :=
  | backward_root (i : string) (s : ContextSnapshot) :
      truthy i = true ->
      findById repo i = Some s ->
      or_null (snapshot_causedBy s) = None ->
      backward_chain repo i [s]
  | backward_step (i parent : string) (s : ContextSnapshot)
      (rest : list ContextSnapshot) :
      truthy i = true ->
      findById repo i = Some s ->
      or_null (snapshot_causedBy s) = Some parent ->
      backward_chain repo parent rest ->
      backward_chain repo i (s :: rest).

(** The nodes that the loop makes of a path walked from depth [d] on, in
    the order of the walk. *)
Definition nodesFrom (d : nat) (path : list ContextSnapshot) : list CausalChainNode :=
  imap (fun k s => mkNode s (d + k) (or_null (snapshot_causedBy s))) path.

Inductive ServiceError : Type :=
  | NotFound (snapshotId : string).

Definition actionTypeName (a : ActionType) : string :=
  match a with
  | conversation => "conversation"
  | decision => "decision"
  | file_edit => "file_edit"
  | tool_use => "tool_use"
  | research => "research"
  end.

Definition blankLine : string :=
  String "010"%char (String "010"%char EmptyString).

(** Modelled from the spec: the body of [reconstructReasoning] is not part
    of the sources, only its signature, its output format and the
    service's [Context not found] error are. It loads the snapshot, fails
    with [NotFound] when the repository has none, and otherwise formats
    action type, rationale (or the placeholder) and summary; a snapshot
    without causality metadata gives its summary only. *)
Definition reconstructReasoning (repo : Table) (snapshotId : string)
    : ServiceError + string :=
  match findById repo snapshotId with
  | None => inl (NotFound snapshotId)
  | Some s =>
      match causality s with
      | None => inr (summary s)
      | Some c =>
          inr ("**Action Type**: " +:+ from_option actionTypeName EmptyString (actionType c)
               +:+ blankLine +:+
               "**Rationale**: " +:+ default "No rationale provided" (rationale c)
               +:+ blankLine +:+
               "**Context Summary**: " +:+ summary s)
      end
  end.

End Causality.

(** ** Layer 2: MemoryManagerService *)

Module MemoryManager.
Import Repository.

(** [calculateMemoryTier(lastAccessed: Date | null, now: Date)]. *)
Definition calculateMemoryTier (lastAccessed : option Z) (now : Z) : MemoryTier :=
  match lastAccessed with
  | None => ARCHIVED
  | Some t =>
      let hoursSinceAccess := hoursBetween t now in
      if Qltb hoursSinceAccess (hours 1) then ACTIVE
      else if Qltb hoursSinceAccess (hours 24) then RECENT
      else if Qltb hoursSinceAccess (hours (24 * 30)) then ARCHIVED
      else EXPIRED
  end.

Record MemoryStats : Type := mkStats {
  total : nat;
  active : nat;
  recent : nat;
  archived : nat;
  expired : nat
}.

(** The body of the [for] loop of [getMemoryStats]: a [switch] on
    [context.memory?.tier] without a default case. *)
Definition countTier (stats : MemoryStats) (context : ContextSnapshot) : MemoryStats :=
  match snapshot_tier context with
  | Some ACTIVE =>
      mkStats (total stats) (S (active stats)) (recent stats) (archived stats) (expired stats)
  | Some RECENT =>
      mkStats (total stats) (active stats) (S (recent stats)) (archived stats) (expired stats)
  | Some ARCHIVED =>
      mkStats (total stats) (active stats) (recent stats) (S (archived stats)) (expired stats)
  | Some EXPIRED =>
      mkStats (total stats) (active stats) (recent stats) (archived stats) (S (expired stats))
  | None => stats
  end.

(** [getMemoryStats(project)]. *)
Definition getMemoryStats (repo : Table) (p : string) : MemoryStats :=
  let contexts := findByProject repo p (Some 1000%nat) in
  fold_left countTier contexts (mkStats (length contexts) 0 0 0 0).

(** The number of snapshots of a list whose persisted tier is [t]. *)
Definition tierCount (t : MemoryTier) (contexts : Table) : nat :=
  length (filter (fun c => snapshot_tier c = Some t) contexts).


(** [pruneExpiredContexts(limit?)]: the [DELETE] statement; the result is
    the table afterwards and the number of rows deleted. *)
Definition pruneExpiredContexts (repo : Table) (limit : option nat) : Table * nat :=
  let doomed := expiredForPruning repo limit in
  (deleteByIds repo (id <$> doomed), length doomed).

End MemoryManager.

(** ** Layer 3: PropagationService *)

Module Propagation.
Import Repository.

(** [(now - lastAccessed) / (1000 * 60 * 60)]. Under JavaScript's
    subtraction a [null] operand counts as 0, the epoch. *)
Definition hoursSinceAccess (lastAccessed : option Z) (now : Z) : Q :=
  hoursBetween (default 0 lastAccessed) now.

(** Temporal score (40% weight). *)
Definition calculateTemporalScore (lastAccessed : option Z) (now : Z) : Q :=
  let h := hoursSinceAccess lastAccessed now in
  if Qltb h (hours 1) then 1.0
  else if Qltb h (hours 6) then 0.8
  else if Qltb h (hours 24) then 0.5
  else if Qltb h (hours 168) then 0.3
  else 0.1.

(** Causal score (30% weight), on the four flags of the source, in the
    order in which the source tests them. *)
Definition causalScoreOf
    (isRootCause hasMultipleChildren isDecisionNode isLeafNode : bool) : Q :=
  if isRootCause then 1.0
  else if hasMultipleChildren then 0.8
  else if isDecisionNode then 0.9
  else if isLeafNode then 0.3
  else 0.5.

(** Modelled from the spec: the sources use the flags [isRootCause],
    [hasMultipleChildren], [isDecisionNode] and [isLeafNode] without
    defining them. A root cause has no [causedBy]; the children of a
    snapshot are the rows whose [causedBy] is its id; a branch point has
    more than one child, a leaf has none; a decision node has
    [actionType = decision]. *)
Definition isRootCause (s : ContextSnapshot) : bool :=
  bool_decide (snapshot_causedBy s = None).

Definition children (repo : Table) (s : ContextSnapshot) : Table :=
  filter (fun r => snapshot_causedBy r = Some (id s)) repo.

Definition hasMultipleChildren (repo : Table) (s : ContextSnapshot) : bool :=
  bool_decide (2 <= length (children repo s))%nat.

Definition isDecisionNode (s : ContextSnapshot) : bool :=
  bool_decide (snapshot_actionType s = Some decision).

Definition isLeafNode (repo : Table) (s : ContextSnapshot) : bool :=
  bool_decide (children repo s = []).

(** [calculateCausalScore(snapshot)]; it reads the causal graph from the
    repository. *)
Definition calculateCausalScore (repo : Table) (s : ContextSnapshot) : Q :=
  causalScoreOf (isRootCause s) (hasMultipleChildren repo s)
    (isDecisionNode s) (isLeafNode repo s).

(** Frequency score (30% weight). A comparison with [undefined] is false. *)
Definition calculateFrequencyScore (accessCount : option Z) : Q :=
  match accessCount with
  | Some n =>
      if 10 <=? n then 1.0
      else if 5 <=? n then 0.7
      else if 2 <=? n then 0.4
      else 0.2
  | None => 0.2
  end.

(** What reading a date property of an object gives: [undefined] when the
    object has no property of that name, else the date or [null]. *)
Inductive DateRead : Type :=
  | undefined_date
  | read_date (d : option Z).

(** [snapshot.lastAccessed] and [snapshot.accessCount]: reads at the top
    level of the snapshot. A snapshot keeps its access data inside its
    [memory] facet ([memory?: { tier, lastAccessed, accessCount }]) and
    has no property of either name of its own, so both reads give
    [undefined]. *)
Definition own_lastAccessed (s : ContextSnapshot) : DateRead := undefined_date.

Definition own_accessCount (s : ContextSnapshot) : option Z := None.

(** [calculateTemporalScore] on what a read gave. With [undefined] the
    elapsed hours are [NaN], every comparison with [NaN] is false, and the
    last [return] applies. *)
Definition temporalScoreOfRead (lastAccessed : DateRead) (now : Z) : Q :=
  match lastAccessed with
  | undefined_date => 0.1
  | read_date d => calculateTemporalScore d now
  end.

(** [calculatePredictionScore(snapshot)]. *)
Definition calculatePredictionScore (repo : Table) (s : ContextSnapshot) (now : Z) : Q :=
  let temporalScore := temporalScoreOfRead (own_lastAccessed s) now in
  let causalScore := calculateCausalScore repo s in
  let frequencyScore := calculateFrequencyScore (own_accessCount s) in
  (temporalScore * 0.4 + causalScore * 0.3 + frequencyScore * 0.3)%Q.

(** [isPredictionStale(lastPredicted, staleThreshold)]. *)
Definition isPredictionStale (lastPredicted : option Z) (staleThreshold : Q) (now : Z)
    : bool :=
  match lastPredicted with
  | None => true
  | Some t =>
      let hoursSincePrediction := hoursBetween t now in
      Qgeb hoursSincePrediction staleThreshold
  end.

(** One [if (...) reasons.push(...)] statement. *)
Definition push_if (cond : bool) (reason : string) (reasons : list string)
    : list string :=
  if cond then reasons ++ [reason] else reasons.

(** [calculatePropagationReasons(context)]. [causedBy === null] is a
    strict comparison: it needs the causality facet to be there. *)
Definition calculatePropagationReasons (context : ContextSnapshot) (now : Z)
    : list string :=
  let reasons := [] in
  let reasons :=
    push_if (Qltb (hoursSinceAccess (snapshot_lastAccessed context) now) (hours 24))
      "recently_accessed" reasons in
  let reasons :=
    push_if (bool_decide (causedBy <$> causality context = Some None))
      "causal_chain_root" reasons in
  let reasons :=
    push_if (from_option (fun n => 10 <=? n) false (snapshot_accessCount context))
      "high_access_frequency" reasons in
  let reasons :=
    push_if (bool_decide (snapshot_tier context = Some ACTIVE))
      "active_memory_tier" reasons in
  let reasons :=
    push_if (bool_decide (snapshot_actionType context = Some decision))
      "decision_node" reasons in
  reasons.

(** The three propagation fields after a recomputation at [now]. *)
Definition refreshPrediction (repo : Table) (now : Z) (ctx : ContextSnapshot)
    : ContextSnapshot :=
  mkSnapshot (id ctx) (project ctx) (summary ctx) (timestamp ctx)
    (causality ctx) (memory ctx)
    (Some (mkPropagation
             (Some (calculatePredictionScore repo ctx now))
             (Some now)
             (calculatePropagationReasons ctx now))).


End Propagation.

(** ** Sample data *)

Module Samples.

Definition root_facet : Causality := mkCausality (Some conversation) None None.

Definition caused_by (a : ActionType) (parent : string) : Causality :=
  mkCausality (Some a) (Some parent) None.

Definition snap (i : string) (c : option Causality) (m : option Memory) : ContextSnapshot :=
  mkSnapshot i "demo" ("summary of " +:+ i) 0 c m None.

(** A (root) <- B <- C, the chain of the end-to-end scenario. *)
Definition snapA : ContextSnapshot := snap "A" (Some root_facet) None.
Definition snapB : ContextSnapshot := snap "B" (Some (caused_by research "A")) None.
Definition snapC : ContextSnapshot := snap "C" (Some (caused_by decision "B")) None.
Definition chainABC : Table := [snapC; snapA; snapB].

(** X <- Y <- X, a cycle. *)
Definition cycleXY : Table :=
  [snap "X" (Some (caused_by research "Y")) None;
   snap "Y" (Some (caused_by research "X")) None].


(** Two snapshots in the EXPIRED tier and one in the ACTIVE tier. *)
Definition twoExpired : Table :=
  [snap "E1" None (Some (mkMemory EXPIRED (Some 5000) 1));
   snap "K" None (Some (mkMemory ACTIVE (Some 9000) 3));
   snap "E2" None (Some (mkMemory EXPIRED None 0))].

(** The two rows of [twoExpired] whose stored tier is EXPIRED. *)
Definition expiredE1 : ContextSnapshot :=
  snap "E1" None (Some (mkMemory EXPIRED (Some 5000) 1)).

Definition expiredE2 : ContextSnapshot :=
  snap "E2" None (Some (mkMemory EXPIRED None 0)).

(** A decision D, caused by R, that caused both K1 and K2. *)
Definition snapD : ContextSnapshot := snap "D" (Some (caused_by decision "R")) None.
Definition branchingDecision : Table :=
  [snap "R" (Some root_facet) None;
   snapD;
   snap "K1" (Some (caused_by file_edit "D")) None;
   snap "K2" (Some (caused_by tool_use "D")) None].

(** A snapshot accessed 7 times, the last time at [0]. *)
Definition sevenTimes : ContextSnapshot :=
  snap "M" (Some root_facet) (Some (mkMemory ACTIVE (Some 0) 7)).




End Samples.

(** ** Further code of the services and of their callers *)

(** *** Access tracking and loading *)

Module AccessTracking.
Import Repository MemoryManager.

(** The memory columns of a row; a row written without them holds the
    defaults of the schema: [memory_tier 'active'], [last_accessed NULL],
    [access_count 0]. *)
Definition rowMemory (s : ContextSnapshot) : Memory :=
  default (mkMemory ACTIVE None 0) (memory s).

Definition withMemory (s : ContextSnapshot) (m : Memory) : ContextSnapshot :=
  mkSnapshot (id s) (project s) (summary s) (timestamp s) (causality s)
    (Some m) (propagation s).

(** [UPDATE context_snapshots
     SET last_accessed = datetime('now'), access_count = access_count + 1
     WHERE id = ?]. *)
Definition updateAccessTracking (repo : Table) (snapshotId : string) (now : Z) : Table :=
  map (fun r =>
         if bool_decide (id r = snapshotId)
         then withMemory r
                (mkMemory (tier (rowMemory r)) (Some now) (accessCount (rowMemory r) + 1))
         else r)
      repo.

(** [trackAccess(snapshotId)]. *)
Definition trackAccess (repo : Table) (snapshotId : string) (now : Z) : Table :=
  updateAccessTracking repo snapshotId now.

(** Modelled from the spec: [updateTier(id, tier)] is called by the
    sources but not listed; it stores the tier of the row with that id. *)
Definition updateTier (repo : Table) (snapshotId : string) (t : MemoryTier) : Table :=
  map (fun r =>
         if bool_decide (id r = snapshotId)
         then withMemory r
                (mkMemory t (lastAccessed (rowMemory r)) (accessCount (rowMemory r)))
         else r)
      repo.

(** [loadContextWithTracking(id)]: the context that is returned and the
    table afterwards. [accessTime] is the [datetime('now')] of the update,
    [now] the [new Date()] read after it. *)
Definition loadContextWithTracking (repo : Table) (snapshotId : string)
    (accessTime now : Z) : option ContextSnapshot * Table :=
  match findById repo snapshotId with
  | Some context =>
      let repo1 := trackAccess repo snapshotId accessTime in
      let newTier := calculateMemoryTier (snapshot_lastAccessed context) now in
      let repo2 :=
        if bool_decide (Some newTier <> snapshot_tier context)
        then updateTier repo1 snapshotId newTier
        else repo1 in
      (Some context, repo2)
  | None => (None, repo)
  end.

(** The tiers in the order in which a snapshot goes through them. *)
Definition tierAge (t : MemoryTier) : nat :=
  match t with
  | ACTIVE => 0
  | RECENT => 1
  | ARCHIVED => 2
  | EXPIRED => 3
  end.

(** [ContextSnapshot.isExpired()]: older than 30 days, by creation time. *)
Definition isExpired (s : ContextSnapshot) (now : Z) : bool :=
  let age := now - timestamp s in
  30 * 24 * 60 * 60 * 1000 <? age.

End AccessTracking.

(** *** High-value contexts and the pre-fetch cache *)

Module HighValue.
Import Repository.

Definition snapshot_predictionScore (s : ContextSnapshot) : option Q :=
  p ← propagation s; predictionScore p.

#[global] Instance Qle_dec : RelDecision Qle.
Proof. intros x y. unfold Qle. apply _. Defined.

(** [prediction_score >= ?]; a [NULL] score satisfies no comparison. *)
Definition score_at_least (minScore : Q) (s : ContextSnapshot) : Prop :=
  match snapshot_predictionScore s with
  | Some q => (minScore <= q)%Q
  | None => False
  end.

#[global] Instance score_at_least_dec (minScore : Q) (s : ContextSnapshot) :
  Decision (score_at_least minScore s).
Proof. unfold score_at_least. destruct (snapshot_predictionScore s); apply _. Defined.

(** [ORDER BY prediction_score DESC]; [NULL] sorts below every number. *)
Definition score_ge (a b : option Q) : Prop :=
  match a, b with
  | _, None => True
  | None, Some _ => False
  | Some x, Some y => (y <= x)%Q
  end.

#[global] Instance score_ge_dec : RelDecision score_ge.
Proof. intros [x|] [y|]; simpl; apply _. Defined.

Definition highest_score_first : relation ContextSnapshot :=
  fun a b => score_ge (snapshot_predictionScore a) (snapshot_predictionScore b).

#[global] Instance highest_score_first_dec : RelDecision highest_score_first.
Proof. intros a b. unfold highest_score_first. apply _. Defined.

(** [getHighValueContexts(project, minScore?, limit?)]:
    [SELECT * FROM context_snapshots
     WHERE project = ? AND prediction_score >= ?
     ORDER BY prediction_score DESC LIMIT ?], with the defaults 0.6 and 5. *)
Definition getHighValueContexts (repo : Table) (p : string)
    (minScore : option Q) (limit : option nat) : Table :=
  take (default 5%nat limit)
    (merge_sort highest_score_first
       (filter (fun r => project r = p /\ score_at_least (default 0.6%Q minScore) r)
          repo)).

(** [const cache = new Map();
     for (const context of highValue) cache.set(context.id, context)]. *)
Definition prefetch (highValue : Table) : gmap string ContextSnapshot :=
  fold_left (fun cache context => <[id context := context]> cache) highValue ∅.

(** [getContext(id)]: [cache.get(id) || loadFromDatabase(id)]. *)
Definition getContext (cache : gmap string ContextSnapshot)
    (loadFromDatabase : string -> option ContextSnapshot) (i : string)
    : option ContextSnapshot :=
  match cache !! i with
  | Some context => Some context
  | None => loadFromDatabase i
  end.

End HighValue.

(** *** A repository that caches [findById] *)

Module CachingRepository.
Import Repository.

(** [findById(id)] of the caching repository: the answer and the cache
    afterwards. The cache is a [Map] from ids to what the query returned,
    [null] included. *)
Definition findById (cache : gmap string (option ContextSnapshot)) (db : Table)
    (i : string) : option ContextSnapshot * gmap string (option ContextSnapshot) :=
  match cache !! i with
  | Some hit => (hit, cache)
  | None =>
      let snapshot := Repository.findById db i in
      (snapshot, <[i := snapshot]> cache)
  end.

(** A run of lookups, each against the table of its moment. *)
Fixpoint findAll (cache : gmap string (option ContextSnapshot))
    (requests : list (Table * string)) : list (option ContextSnapshot) :=
  match requests with
  | [] => []
  | (db, i) :: rest =>
      let '(answer, cache') := findById cache db i in
      answer :: findAll cache' rest
  end.

End CachingRepository.

(** *** The domain-layer listing of [buildCausalChain] *)

Module DomainLayer.
Import Repository Causality.

(** A node as this listing builds it: [{ snapshot, depth }]. *)
Record ChainEntry : Type := mkEntry {
  entry_snapshot : ContextSnapshot;
  entry_depth : nat
}.

(** The loop [while (currentId)] of the listing: no visited set, and
    [depth: chain.length] at the moment of [unshift]. *)
Fixpoint chain_loop (fuel : nat) (repo : Table) (chain : list ChainEntry)
    (currentId : option string) : option (list ChainEntry) :=
  match fuel with
  | O => None
  | S fuel' =>
      match currentId with
      | None => Some chain
      | Some cid =>
          if truthy cid then
            match findById repo cid with
            | None => Some chain
            | Some snap =>
                chain_loop fuel' repo
                  (mkEntry snap (length chain) :: chain)
                  (or_null (snapshot_causedBy snap))
            end
          else Some chain
      end
  end.

Definition buildCausalChain (fuel : nat) (repo : Table) (snapshotId : string)
    : option (list ChainEntry) :=
  chain_loop fuel repo [] (Some snapshotId).

(** What a node of the service's chain shows of itself in this form. *)
Definition entryOf (n : CausalChainNode) : ChainEntry :=
  mkEntry (snapshot n) (depth n).

End DomainLayer.

(** *** The shape of a chain under construction *)

Module ChainShape.
Import Repository Causality.

(** What the loop of [buildCausalChain] keeps true of its chain: the ids
    of its snapshots are marked and distinct, each snapshot is the row the
    table holds under its id, each node is caused by the node before it,
    and the next id to visit is the cause recorded in the first node. *)
Definition chain_ok (repo : Table) (visited : gset string)
    (currentId : option string) (chain : list CausalChainNode) : Prop :=
  (forall n, n ∈ chain -> id (snapshot n) ∈ visited) /\
  NoDup ((fun n => id (snapshot n)) <$> chain) /\
  (forall n, n ∈ chain -> findById repo (id (snapshot n)) = Some (snapshot n)) /\
  (forall k a b, chain !! k = Some a -> chain !! S k = Some b ->
     node_causedBy b = Some (id (snapshot a))) /\
  (forall n, chain !! 0%nat = Some n -> node_causedBy n = currentId).

End ChainShape.

(** *** The playground player *)

Module Playground.

Section Player.

(** The script of the component never looks inside a message. *)
Variable Message : Type.

Record Scenario : Type := mkScenario {
  scenario_id : string;
  icon : string;
  title : string;
  description : string;
  category : string;
  messages : list Message
}.

(** The three [ref]s of the component. *)
Record Player : Type := mkPlayer {
  selectedScenario : option Scenario;
  currentMessageIndex : nat;
  isPlaying : bool
}.

Definition initial : Player := mkPlayer None 0 false.

(** [messages.slice(0, currentMessageIndex + 1)]. *)
Definition visibleMessages (st : Player) : list Message :=
  match selectedScenario st with
  | None => []
  | Some sc => take (S (currentMessageIndex st)) (messages sc)
  end.

(** [currentMessageIndex < messages.length - 1]. *)
Definition canAdvance (st : Player) : bool :=
  match selectedScenario st with
  | None => false
  | Some sc =>
      Z.of_nat (currentMessageIndex st) <? Z.of_nat (length (messages sc)) - 1
  end.

Definition canRestart (st : Player) : bool :=
  (0 <? currentMessageIndex st)%nat.

Definition selectScenario (sc : Scenario) (st : Player) : Player :=
  mkPlayer (Some sc) 0 false.

(** [nextMessage()] up to the [setTimeout]: the state, and whether the
    callback was scheduled. *)
Definition nextMessage (st : Player) : Player * bool :=
  if canAdvance st
  then (mkPlayer (selectedScenario st) (currentMessageIndex st) true, true)
  else (st, false).

(** The callback given to [setTimeout]. *)
Definition nextMessage_callback (st : Player) : Player :=
  mkPlayer (selectedScenario st) (S (currentMessageIndex st)) false.

Definition restart (st : Player) : Player :=
  mkPlayer (selectedScenario st) 0 false.

Definition backToScenarios (st : Player) : Player :=
  mkPlayer None 0 false.

(** A click on "Next Step" followed by its callback. *)
Definition step (st : Player) : Player :=
  let '(st', scheduled) := nextMessage st in
  if scheduled then nextMessage_callback st' else st'.

End Player.

Arguments mkScenario {Message}.
Arguments messages {Message}.
Arguments mkPlayer {Message}.
Arguments selectedScenario {Message}.
Arguments currentMessageIndex {Message}.
Arguments isPlaying {Message}.
Arguments initial {Message}.
Arguments visibleMessages {Message}.
Arguments canAdvance {Message}.
Arguments canRestart {Message}.
Arguments selectScenario {Message}.
Arguments nextMessage {Message}.
Arguments nextMessage_callback {Message}.
Arguments restart {Message}.
Arguments backToScenarios {Message}.
Arguments step {Message}.

End Playground.

(** *** More sample data *)

Module MoreSamples.
Import Samples.

Definition scored (i : string) (score : option Q) (created : Z) : ContextSnapshot :=
  mkSnapshot i "demo" ("summary of " +:+ i) created (Some root_facet)
    (Some (mkMemory ACTIVE (Some created) 1))
    (Some (mkPropagation score (Some created) [])).

(** Four snapshots of one project, one of them without a score. *)
Definition scoredFour : Table :=
  [scored "P1" (Some 0.7%Q) 10; scored "P2" None 40;
   scored "P3" (Some 0.95%Q) 30; scored "P4" (Some 0.5%Q) 20].

(** A snapshot created and last accessed at the epoch, stored as ARCHIVED. *)
Definition oldContext : ContextSnapshot :=
  snap "O" None (Some (mkMemory ARCHIVED (Some 0) 4)).

Definition oldTable : Table := [snapA; oldContext].

End MoreSamples.

(** * Properties *)

(** ** Rationals and hours *)

Lemma hoursBetween_lt (earlier later n : Z) :
  (hoursBetween earlier later < hours n)%Q <-> later - earlier < n * 3600000.
Proof. unfold hoursBetween, hours, Qlt, msPerHour; simpl. lia. Qed.

Lemma hoursBetween_le (earlier later n : Z) :
  (hours n <= hoursBetween earlier later)%Q <-> n * 3600000 <= later - earlier.
Proof. unfold hoursBetween, hours, Qle, msPerHour; simpl. lia. Qed.

Lemma Qltb_lt (a b : Q) : Qltb a b = true <-> (a < b)%Q.
Proof. unfold Qltb, Qlt. apply Z.ltb_lt. Qed.

Lemma Qltb_ge (a b : Q) : Qltb a b = false <-> (b <= a)%Q.
Proof. unfold Qltb, Qle. apply Z.ltb_ge. Qed.

Lemma Qgeb_le (a b : Q) : Qgeb a b = true <-> (b <= a)%Q.
Proof. unfold Qgeb, Qle. apply Z.leb_le. Qed.

(** ** The repository *)

Module RepositoryFacts.
Import Repository.

Lemma findById_Some (repo : Table) (i : string) (s : ContextSnapshot) :
  findById repo i = Some s -> s ∈ repo /\ id s = i.
Proof.
  unfold findById. intros H. apply find_some in H as [Hin Hid].
  split; [by apply list_elem_of_In | by apply bool_decide_eq_true in Hid].
Qed.

Lemma findById_idsOf (repo : Table) (i : string) (s : ContextSnapshot) :
  findById repo i = Some s -> i ∈ idsOf repo.
Proof.
  intros H. apply findById_Some in H as [Hin <-].
  unfold idsOf. apply elem_of_list_to_set, list_elem_of_fmap. eauto.
Qed.

Lemma size_idsOf (repo : Table) : (size (idsOf repo) <= length repo)%nat.
Proof.
  unfold idsOf. induction repo as [|r repo IH].
  - rewrite fmap_nil, list_to_set_nil, size_empty. reflexivity.
  - rewrite fmap_cons, list_to_set_cons, size_union_alt, size_singleton.
    pose proof (subseteq_size (list_to_set (id <$> repo) ∖ {[id r]})
                  (list_to_set (id <$> repo) : gset string)) as Hle.
    cbn [length]. apply le_n_S.
    etrans; [apply Hle, subseteq_difference_l; reflexivity | apply IH].
Qed.

(** One more than the number of rows exceeds the number of ids that the
    loop of [buildCausalChain] can still mark at its start. *)
Lemma enough_fuel (repo : Table) :
  (size (idsOf repo ∖ (∅ : gset string)) < S (length repo))%nat.
Proof.
  pose proof (size_idsOf repo) as Hsize.
  pose proof (subseteq_size (idsOf repo ∖ ∅) (idsOf repo)) as Hle.
  apply Nat.lt_succ_r.
  etrans; [apply Hle, subseteq_difference_l; reflexivity | exact Hsize].
Qed.

Lemma take_limit_elem_of {A : Type} (limit : option nat) (l : list A) (x : A) :
  x ∈ take_limit limit l -> x ∈ l.
Proof. destruct limit as [n|]; simpl; [apply subseteq_take | done]. Qed.

(** The primary key determines the row. *)
Lemma primary_key (repo : Table) (r d : ContextSnapshot) :
  NoDup (id <$> repo) -> r ∈ repo -> d ∈ repo -> id r = id d -> r = d.
Proof.
  induction repo as [|x repo IH]; intros Hkeys Hr Hd Heq.
  - by apply elem_of_nil in Hr.
  - rewrite fmap_cons in Hkeys. apply NoDup_cons in Hkeys as [Hx Hkeys].
    apply elem_of_cons in Hr as [->|Hr]; apply elem_of_cons in Hd as [->|Hd].
    + reflexivity.
    + exfalso. apply Hx. rewrite Heq. apply list_elem_of_fmap. eauto.
    + exfalso. apply Hx. rewrite <- Heq. apply list_elem_of_fmap. eauto.
    + by apply IH.
Qed.

Lemma findById_elem_of (repo : Table) (r : ContextSnapshot) :
  NoDup (id <$> repo) -> r ∈ repo -> findById repo (id r) = Some r.
Proof.
  intros Hkeys Hr. unfold findById.
  destruct (find (fun x => bool_decide (id x = id r)) repo) as [x|] eqn:Hfind.
  - apply find_some in Hfind as [Hx Hid].
    apply bool_decide_eq_true in Hid. apply list_elem_of_In in Hx.
    f_equal. by apply (primary_key repo).
  - apply list_elem_of_In in Hr. eapply find_none in Hfind; [|exact Hr].
    by rewrite bool_decide_eq_true_2 in Hfind.
Qed.


End RepositoryFacts.

(** ** Layer 1: building causal chains *)

Module CausalityFacts.
Import Repository Causality RepositoryFacts Samples.

(** What the guard of the [while] loop says when it lets an iteration run. *)
Lemma loop_guard_true (cid : string) (visited : gset string) :
  truthy cid && negb (bool_decide (cid ∈ visited)) = true <->
  truthy cid = true /\ cid ∉ visited.
Proof.
  rewrite andb_true_iff, negb_true_iff, bool_decide_eq_false. reflexivity.
Qed.

(** Each iteration that runs marks an id of the table that was not marked
    before, so the unmarked ids of the table bound the iterations left. *)
Lemma chain_loop_terminates (repo : Table) (fuel : nat) :
  forall (chain : list CausalChainNode) (visited : gset string)
         (currentId : option string) (d : nat),
    (size (idsOf repo ∖ visited) < fuel)%nat ->
    is_Some (chain_loop fuel repo chain visited currentId d).
Proof.
  induction fuel as [|fuel IH]; intros chain visited currentId d Hfuel; [lia|].
  cbn [chain_loop]. destruct currentId as [cid|]; [|eauto].
  destruct (truthy cid && negb (bool_decide (cid ∈ visited))) eqn:Hguard; [|eauto].
  apply loop_guard_true in Hguard as [_ Hfresh].
  destruct (findById repo cid) as [snap|] eqn:Hfind; [|eauto].
  apply IH. apply findById_idsOf in Hfind.
  assert (idsOf repo ∖ ({[cid]} ∪ visited) ⊂ idsOf repo ∖ visited) as Hsub.
  { split.
    - intros x. rewrite !elem_of_difference, not_elem_of_union. tauto.
    - intros Hall. specialize (Hall cid).
      rewrite !elem_of_difference, not_elem_of_union, not_elem_of_singleton in Hall.
      tauto. }
  apply subset_size in Hsub. lia.
Qed.

(** More fuel does not change a result. *)
Lemma chain_loop_fuel_mono (repo : Table) (fuel : nat) :
  forall (fuel' : nat) (chain : list CausalChainNode) (visited : gset string)
         (currentId : option string) (d : nat) (result : list CausalChainNode),
    chain_loop fuel repo chain visited currentId d = Some result ->
    (fuel <= fuel')%nat ->
    chain_loop fuel' repo chain visited currentId d = Some result.
Proof.
  induction fuel as [|fuel IH]; intros fuel' chain visited currentId d result Hrun Hle;
    [discriminate|].
  destruct fuel' as [|fuel']; [lia|].
  cbn [chain_loop] in *. destruct currentId as [cid|]; [|assumption].
  destruct (truthy cid && negb (bool_decide (cid ∈ visited))); [|assumption].
  destruct (findById repo cid); [|assumption].
  eapply IH; [eassumption | lia].
Qed.

(** The loop only adds in front of the chain it was given, and numbers
    what it adds downwards to [d]: the node added first, which ends up
    next to the old chain, has depth [d]. *)
Lemma chain_loop_extends (repo : Table) (fuel : nat) :
  forall (chain : list CausalChainNode) (visited : gset string)
         (currentId : option string) (d : nat) (result : list CausalChainNode),
    chain_loop fuel repo chain visited currentId d = Some result ->
    exists added : list CausalChainNode,
      result = added ++ chain /\
      depth <$> added = rev (seq d (length added)).
Proof.
  induction fuel as [|fuel IH]; intros chain visited currentId d result Hrun;
    [discriminate|].
  cbn [chain_loop] in Hrun.
  assert (Some chain = Some result ->
          exists added, result = added ++ chain /\
                        depth <$> added = rev (seq d (length added))) as Hstop.
  { intros [= <-]. exists []. split; reflexivity. }
  destruct currentId as [cid|]; [|auto].
  destruct (truthy cid && negb (bool_decide (cid ∈ visited))); [|auto].
  destruct (findById repo cid) as [snap|]; [|auto].
  apply IH in Hrun as (added & -> & Hdepths).
  exists (added ++ [mkNode snap d (or_null (snapshot_causedBy snap))]).
  split; [by rewrite <- app_assoc|].
  rewrite fmap_app, Hdepths, length_app. cbn [length fmap list_fmap depth].
  rewrite Nat.add_1_r. cbn [seq rev]. reflexivity.
Qed.

(** On a resolvable path whose ids the loop has not marked yet, the loop
    adds exactly the nodes of the path, the last one met in front. *)
Lemma chain_loop_backward_chain (repo : Table) (i : string)
    (path : list ContextSnapshot) :
  backward_chain repo i path ->
  forall (fuel : nat) (chain : list CausalChainNode) (visited : gset string)
         (d : nat) (result : list CausalChainNode),
    NoDup (id <$> path) ->
    (forall s, s ∈ path -> id s ∉ visited) ->
    chain_loop fuel repo chain visited (Some i) d = Some result ->
    result = rev (nodesFrom d path) ++ chain.
Proof.
  induction 1 as [i s Htruthy Hfind Hroot | i parent s rest Htruthy Hfind Hparent Hrest IH];
    intros fuel chain visited d result Hnodup Hfresh Hrun;
    (destruct fuel as [|fuel]; [discriminate|]);
    cbn [chain_loop] in Hrun;
    pose proof (findById_Some _ _ _ Hfind) as [_ Hid];
    (assert (i ∉ visited) as Hi by (rewrite <- Hid; apply Hfresh; left));
    (replace (truthy i && negb (bool_decide (i ∈ visited))) with true in Hrun
      by (symmetry; by apply loop_guard_true));
    rewrite Hfind in Hrun.
  - rewrite Hroot in Hrun. destruct fuel as [|fuel]; [discriminate|].
    cbn [chain_loop] in Hrun. injection Hrun as <-.
    unfold nodesFrom. cbn. rewrite Hroot, Nat.add_0_r. reflexivity.
  - rewrite Hparent in Hrun.
    rewrite fmap_cons in Hnodup. apply NoDup_cons in Hnodup as [Hhead Htail].
    apply IH in Hrun; [|assumption|].
    + subst result. unfold nodesFrom. rewrite imap_cons. cbn [rev].
      rewrite <- app_assoc, Nat.add_0_r, Hparent. cbn [app].
      do 2 f_equal. apply imap_ext. intros k x _. cbn. f_equal. lia.
    + intros x Hx. rewrite not_elem_of_union, not_elem_of_singleton. split.
      * intros Heq. apply Hhead. rewrite Hid, <- Heq.
        apply list_elem_of_fmap. eauto.
      * apply Hfresh. by right.
Qed.

Example chainABC_backward : backward_chain chainABC "C" [snapC; snapB; snapA].
Proof.
  eapply backward_step; [reflexivity..|].
  eapply backward_step; [reflexivity..|].
  apply backward_root; reflexivity.
Qed.

(** The depths of a returned chain: [length - 1] at index 0, down to 0 at
    the last index, whatever the graph. *)
Lemma buildCausalChain_depths (repo : Table) (snapshotId : string)
    (chain : list CausalChainNode) :
  buildCausalChain repo snapshotId = Some chain ->
  depth <$> chain = rev (seq 0 (length chain)).
Proof.
  intros Hrun. apply chain_loop_extends in Hrun as (added & -> & Hdepths).
  by rewrite app_nil_r.
Qed.

(** On an acyclic, fully resolvable backward chain the result holds the
    root cause at index 0 and the queried snapshot at the last index, and
    the depth of a node is its distance from the queried snapshot. *)
Lemma buildCausalChain_acyclic (repo : Table) (snapshotId : string)
    (path : list ContextSnapshot) :
  backward_chain repo snapshotId path ->
  NoDup (id <$> path) ->
  buildCausalChain repo snapshotId = Some (rev (nodesFrom 0 path)).
Proof.
  intros Hpath Hnodup.
  destruct (chain_loop_terminates repo (S (length repo)) [] ∅ (Some snapshotId) 0%nat)
    as [result Hrun].
  { apply enough_fuel. }
  unfold buildCausalChain, buildCausalChain_fuel. rewrite Hrun. f_equal.
  eapply chain_loop_backward_chain in Hrun;
    [|eassumption|assumption|intros; apply not_elem_of_empty].
  by rewrite app_nil_r in Hrun.
Qed.

(** C1. On the chain A <- B <- C of the end-to-end scenario,
    [buildCausalChain] puts the root cause A at index 0 and the queried
    snapshot C last, but numbers them 2, 1, 0: the depth is the distance
    from the queried snapshot and decreases along the result, where the
    documented depth is the distance from the root (0, 1, 2). *)
Theorem buildCausalChain_depth_from_target :
  option_map (map (fun n => (id (snapshot n), depth n)))
    (buildCausalChain chainABC "C")
  = Some [("A", 2%nat); ("B", 1%nat); ("C", 0%nat)].
Proof. vm_compute. reflexivity. Qed.

(** C6. [buildCausalChain] returns for every table and every starting id,
    cycles included: one iteration more than the table has rows is
    enough, any larger bound gives the same chain, and the chain is not
    empty when the repository has the starting snapshot. *)
Theorem buildCausalChain_terminates (repo : Table) (snapshotId : string) :
  exists chain : list CausalChainNode,
    buildCausalChain repo snapshotId = Some chain /\
    (forall fuel : nat,
       (length repo < fuel)%nat ->
       buildCausalChain_fuel fuel repo snapshotId = Some chain) /\
    (forall snap : ContextSnapshot,
       snapshotId <> EmptyString ->
       findById repo snapshotId = Some snap ->
       chain <> []).
Proof.
  destruct (chain_loop_terminates repo (S (length repo)) [] ∅ (Some snapshotId) 0%nat)
    as [chain Hrun].
  { apply enough_fuel. }
  exists chain. split; [exact Hrun|]. split.
  - intros fuel Hfuel. eapply chain_loop_fuel_mono; [exact Hrun | lia].
  - intros snap Hid Hfind Hempty. subst chain.
    cbn [chain_loop] in Hrun.
    replace (truthy snapshotId && negb (bool_decide (snapshotId ∈ (∅ : gset string))))
      with true in Hrun.
    + rewrite Hfind in Hrun.
      apply chain_loop_extends in Hrun as (added & Heq & _).
      by destruct added.
    + symmetry. apply loop_guard_true. split; [|apply not_elem_of_empty].
      unfold truthy. by rewrite bool_decide_eq_false_2.
Qed.

(** On the cycle X <- Y <- X the chain built from X is returned and is not
    empty. *)
Lemma buildCausalChain_terminates_witness :
  exists chain : list CausalChainNode,
    buildCausalChain cycleXY "X" = Some chain /\ chain <> [].
Proof.
  destruct (buildCausalChain_terminates cycleXY "X") as (chain & Hrun & _ & Hne).
  exists chain. split; [exact Hrun|].
  eapply Hne; [discriminate | vm_compute; reflexivity].
Defined.

(** C10. For a starting id that the repository cannot return,
    [buildCausalChain] returns the empty chain, with any iteration bound,
    where [reconstructReasoning] fails with [NotFound]. *)
Theorem buildCausalChain_unknown_id (repo : Table) (snapshotId : string) :
  findById repo snapshotId = None ->
  buildCausalChain repo snapshotId = Some [] /\
  (forall fuel : nat,
     (0 < fuel)%nat -> buildCausalChain_fuel fuel repo snapshotId = Some []) /\
  reconstructReasoning repo snapshotId = inl (NotFound snapshotId).
Proof.
  intros Hfind.
  assert (forall fuel, (0 < fuel)%nat ->
            buildCausalChain_fuel fuel repo snapshotId = Some []) as Hany.
  { intros [|fuel] Hfuel; [lia|].
    unfold buildCausalChain_fuel. cbn [chain_loop]. rewrite Hfind.
    by destruct (truthy snapshotId && _). }
  split; [apply Hany; lia|]. split; [exact Hany|].
  unfold reconstructReasoning. by rewrite Hfind.
Qed.

Lemma buildCausalChain_unknown_id_witness :
  buildCausalChain chainABC "Z" = Some [] /\
  reconstructReasoning chainABC "Z" = inl (NotFound "Z").
Proof.
  destruct (buildCausalChain_unknown_id chainABC "Z") as (Hchain & _ & Herr).
  - vm_compute. reflexivity.
  - split; assumption.
Defined.

End CausalityFacts.

(** ** Layer 2: memory tiers *)

Module MemoryManagerFacts.
Import Repository MemoryManager RepositoryFacts Samples.

Example tier_59m59s : calculateMemoryTier (Some 0) 3599000 = ACTIVE.
Proof. reflexivity. Qed.

Example tier_60m00s : calculateMemoryTier (Some 0) 3600000 = RECENT.
Proof. reflexivity. Qed.

(** C2. [calculateMemoryTier] is a function of the elapsed hours [h]
    with half-open boundaries at 1 h, 24 h and 720 h: [h < 1] is
    ACTIVE, [1 <= h < 24] is RECENT, [24 <= h < 720] is ARCHIVED,
    [h >= 720] is EXPIRED; a snapshot never accessed is ARCHIVED. *)
Theorem calculateMemoryTier_boundaries (now : Z) :
  calculateMemoryTier None now = ARCHIVED /\
  forall t : Z,
    let h := hoursBetween t now in
    ((h < hours 1)%Q -> calculateMemoryTier (Some t) now = ACTIVE) /\
    ((hours 1 <= h)%Q -> (h < hours 24)%Q ->
       calculateMemoryTier (Some t) now = RECENT) /\
    ((hours 24 <= h)%Q -> (h < hours 720)%Q ->
       calculateMemoryTier (Some t) now = ARCHIVED) /\
    ((hours 720 <= h)%Q -> calculateMemoryTier (Some t) now = EXPIRED).
Proof.
  split; [reflexivity|].
  intros t h. unfold calculateMemoryTier. fold h.
  change (24 * 30) with 720.
  repeat split; intros;
    repeat match goal with
    | |- context [Qltb ?a ?b] =>
        let E := fresh "E" in
        destruct (Qltb a b) eqn:E;
        [apply Qltb_lt in E | apply Qltb_ge in E]
    end;
    try reflexivity;
    subst h;
    repeat match goal with
    | H : (hoursBetween _ _ < hours _)%Q |- _ => apply hoursBetween_lt in H
    | H : (hours _ <= hoursBetween _ _)%Q |- _ => apply hoursBetween_le in H
    end; lia.
Qed.

(** Exactly one hour after the last access the tier is RECENT, one
    millisecond earlier it is still ACTIVE. *)
Lemma calculateMemoryTier_boundaries_witness :
  calculateMemoryTier (Some 1000) 3601000 = RECENT /\
  calculateMemoryTier (Some 1000) 3600999 = ACTIVE.
Proof.
  split.
  - apply (calculateMemoryTier_boundaries 3601000).
    + apply hoursBetween_le. lia.
    + apply hoursBetween_lt. lia.
  - apply (calculateMemoryTier_boundaries 3600999).
    apply hoursBetween_lt. lia.
Defined.

(** The loop of [getMemoryStats] adds, to each counter it starts from,
    the number of snapshots with that persisted tier. *)
Lemma fold_countTier (contexts : Table) :
  forall stats : MemoryStats,
    let result := fold_left countTier contexts stats in
    total result = total stats /\
    active result = (active stats + tierCount ACTIVE contexts)%nat /\
    recent result = (recent stats + tierCount RECENT contexts)%nat /\
    archived result = (archived stats + tierCount ARCHIVED contexts)%nat /\
    expired result = (expired stats + tierCount EXPIRED contexts)%nat.
Proof.
  unfold tierCount.
  induction contexts as [|c contexts IH]; intros stats; cbn [fold_left].
  - cbn. repeat split; lia.
  - specialize (IH (countTier stats c)). cbn zeta in IH.
    destruct IH as (Ht & Ha & Hr & Hv & He).
    rewrite Ht, Ha, Hr, Hv, He. clear Ht Ha Hr Hv He.
    rewrite !filter_cons. unfold countTier.
    destruct (snapshot_tier c) as [[]|]; cbn;
      repeat (case_decide; try congruence); cbn; repeat split; lia.
Qed.



#[local] Instance lastAccessed_le_trans : Transitive lastAccessed_le.
Proof. intros [x|] [y|] [z|]; simpl; try tauto; lia. Qed.

#[local] Instance lastAccessed_le_total : Total lastAccessed_le.
Proof. intros [x|] [y|]; simpl; try tauto; lia. Qed.

#[local] Instance oldest_access_first_trans : Transitive oldest_access_first.
Proof. intros a b c. unfold oldest_access_first. apply lastAccessed_le_trans. Qed.

#[local] Instance oldest_access_first_total : Total oldest_access_first.
Proof. intros a b. unfold oldest_access_first. apply lastAccessed_le_total. Qed.

Section Pruning.

Variable repo : Table.
Variable limit : option nat.

Let expiredRows : Table := filter (fun r => snapshot_tier r = Some EXPIRED) repo.
Let sorted : Table := merge_sort oldest_access_first expiredRows.
Let doomed : Table := expiredForPruning repo limit.
Let kept : Table := (pruneExpiredContexts repo limit).1.

Lemma sorted_elem_of (r : ContextSnapshot) :
  r ∈ sorted <-> r ∈ repo /\ snapshot_tier r = Some EXPIRED.
Proof.
  unfold sorted, expiredRows.
  rewrite merge_sort_Permutation, list_elem_of_filter. tauto.
Qed.

Lemma doomed_elem_of (r : ContextSnapshot) :
  r ∈ doomed -> r ∈ repo /\ snapshot_tier r = Some EXPIRED.
Proof. intros H. apply sorted_elem_of. by apply take_limit_elem_of in H. Qed.

Lemma kept_elem_of (r : ContextSnapshot) :
  r ∈ kept <-> r ∈ repo /\ id r ∉ id <$> doomed.
Proof.
  unfold kept, pruneExpiredContexts, deleteByIds. cbn [fst].
  rewrite list_elem_of_filter. tauto.
Qed.

Lemma doomed_sorted : StronglySorted oldest_access_first doomed.
Proof.
  pose proof (StronglySorted_merge_sort oldest_access_first expiredRows) as Hsorted.
  unfold doomed, expiredForPruning. fold expiredRows sorted.
  destruct limit as [n|]; simpl; [|exact Hsorted].
  fold sorted in Hsorted. rewrite <- (take_drop n sorted) in Hsorted.
  by apply StronglySorted_app in Hsorted as (_ & Htake & _).
Qed.

(** A row that is deleted is at most as recently accessed as an EXPIRED
    row that is kept. *)
Lemma doomed_oldest (r k : ContextSnapshot) :
  r ∈ doomed -> k ∈ kept -> snapshot_tier k = Some EXPIRED ->
  oldest_access_first r k.
Proof.
  intros Hr Hk Hexpired. apply kept_elem_of in Hk as [Hk Hnot].
  assert (k ∈ sorted) as Hsorted by by apply sorted_elem_of.
  assert (k ∉ doomed) as Hkd.
  { intros Hkd. apply Hnot, list_elem_of_fmap. eauto. }
  unfold doomed, expiredForPruning in Hr, Hkd. fold expiredRows sorted in Hr, Hkd.
  destruct limit as [n|]; simpl in Hr, Hkd; [|contradiction].
  pose proof (StronglySorted_merge_sort oldest_access_first expiredRows) as Hss.
  fold sorted in Hss. rewrite <- (take_drop n sorted) in Hss, Hsorted.
  apply elem_of_app in Hsorted as [Hin|Hin]; [contradiction|].
  by eapply StronglySorted_app_1_elem_of.
Qed.

Lemma doomed_uncapped :
  (forall n : nat, limit = Some n -> (tierCount EXPIRED repo <= n)%nat) ->
  doomed = sorted.
Proof.
  intros Hcap. unfold doomed, expiredForPruning. fold expiredRows sorted.
  destruct limit as [n|]; simpl; [|reflexivity].
  apply take_ge. unfold sorted. rewrite merge_sort_Permutation.
  by apply Hcap.
Qed.

(** After a run that the limit did not cut short no EXPIRED row is left,
    so the next run selects nothing. *)
Lemma prune_again (limit' : option nat) :
  (forall n : nat, limit = Some n -> (tierCount EXPIRED repo <= n)%nat) ->
  (pruneExpiredContexts kept limit').2 = 0%nat.
Proof.
  intros Hcap. apply doomed_uncapped in Hcap.
  unfold pruneExpiredContexts at 1. cbn [snd].
  assert (filter (fun r => snapshot_tier r = Some EXPIRED) kept = []) as Hnone.
  { apply elem_of_nil_inv. intros r Hr.
    apply list_elem_of_filter in Hr as [Hexpired Hr].
    apply kept_elem_of in Hr as [Hr Hnot]. apply Hnot.
    apply list_elem_of_fmap. exists r. split; [reflexivity|].
    rewrite Hcap. by apply sorted_elem_of. }
  unfold expiredForPruning. rewrite Hnone.
  by destruct limit' as [[|n]|].
Qed.

(** A run that the limit does not cut short deletes every row whose stored
    tier is EXPIRED. *)
Lemma prune_all_expired (r : ContextSnapshot) :
  (forall n : nat, limit = Some n -> (tierCount EXPIRED repo <= n)%nat) ->
  r ∈ repo -> snapshot_tier r = Some EXPIRED -> r ∉ kept.
Proof.
  intros Hcap Hr Hexpired Hk. apply doomed_uncapped in Hcap.
  apply kept_elem_of in Hk as [_ Hnot]. apply Hnot.
  apply list_elem_of_fmap. exists r. split; [reflexivity|].
  rewrite Hcap. by apply sorted_elem_of.
Qed.

Hypothesis keys : NoDup (id <$> repo).

Lemma deleted_is_doomed (r : ContextSnapshot) :
  r ∈ repo -> r ∉ kept -> r ∈ doomed.
Proof.
  intros Hr Hgone.
  destruct (decide (id r ∈ id <$> doomed)) as [Hin|Hnot].
  - apply list_elem_of_fmap in Hin as (d & Heq & Hd).
    pose proof (doomed_elem_of d Hd) as [Hdrepo _].
    by rewrite (primary_key repo r d keys Hr Hdrepo Heq).
  - exfalso. apply Hgone, kept_elem_of. by split.
Qed.

Lemma doomed_NoDup : NoDup doomed.
Proof.
  assert (NoDup sorted) as Hsorted.
  { unfold sorted. rewrite merge_sort_Permutation.
    apply NoDup_filter. by apply NoDup_fmap_1 in keys. }
  unfold doomed, expiredForPruning. fold expiredRows sorted.
  destruct limit as [n|]; simpl; [|exact Hsorted].
  eapply sublist_NoDup; [exact Hsorted | apply sublist_take].
Qed.

(** The count returned is the number of rows that left the table. *)
Lemma prune_count : (length kept + length doomed = length repo)%nat.
Proof.
  pose proof (filter_app_complement (fun r => id r ∉ id <$> doomed) repo) as Hsplit.
  apply Permutation_length in Hsplit. rewrite length_app in Hsplit.
  rewrite <- Hsplit. unfold kept, pruneExpiredContexts, deleteByIds. cbn [fst].
  fold doomed. f_equal. apply Permutation_length, NoDup_Permutation.
  - apply doomed_NoDup.
  - apply NoDup_filter. by apply NoDup_fmap_1 in keys.
  - intros r. rewrite list_elem_of_filter. split.
    + intros Hr. split.
      * intros Hnot. apply Hnot, list_elem_of_fmap. eauto.
      * by apply doomed_elem_of.
    + intros [Hin Hr]. apply deleted_is_doomed; [assumption|].
      intros Hk. by apply kept_elem_of in Hk as [_ Hk].
Qed.

End Pruning.

(** C4, as the code has it. The tier that decides is the one stored in
    the [memory_tier] column, not the one [calculateMemoryTier] would
    give. On a table with [id] as its key, [pruneExpiredContexts] deletes
    only rows whose stored tier is EXPIRED and keeps every other row; the
    rows deleted come oldest [lastAccessed] first, [null] before any
    date, and none of them was accessed after an EXPIRED row that stays;
    the count returned is the number of rows deleted and is at most
    [limit]; and when the limit did not cut the run short (no limit, or
    at least as large as the number of rows stored as EXPIRED), every
    row stored as EXPIRED is deleted and a second run deletes nothing. *)
Theorem pruneExpiredContexts_safe (repo : Table) (limit : option nat) :
  NoDup (id <$> repo) ->
  let doomed := expiredForPruning repo limit in
  let kept := (pruneExpiredContexts repo limit).1 in
  let deleted := (pruneExpiredContexts repo limit).2 in
  (forall r, r ∈ kept -> r ∈ repo) /\
  (forall r, r ∈ repo -> r ∉ kept ->
     r ∈ doomed /\ snapshot_tier r = Some EXPIRED) /\
  StronglySorted oldest_access_first doomed /\
  (forall r k, r ∈ doomed -> k ∈ kept -> snapshot_tier k = Some EXPIRED ->
     oldest_access_first r k) /\
  deleted = length doomed /\
  (length kept + deleted = length repo)%nat /\
  (forall n : nat, limit = Some n -> (deleted <= n)%nat) /\
  ((forall n : nat, limit = Some n -> (tierCount EXPIRED repo <= n)%nat) ->
   (forall r, r ∈ repo -> snapshot_tier r = Some EXPIRED -> r ∉ kept) /\
   forall limit' : option nat, (pruneExpiredContexts kept limit').2 = 0%nat).
Proof.
  intros keys doomed kept deleted. repeat apply conj.
  - intros r Hr. by apply kept_elem_of in Hr as [Hr _].
  - intros r Hr Hgone.
    pose proof (deleted_is_doomed repo limit keys r Hr Hgone) as Hd.
    split; [exact Hd|]. by apply doomed_elem_of in Hd as [_ Hd].
  - apply doomed_sorted.
  - apply doomed_oldest.
  - reflexivity.
  - by apply prune_count.
  - intros n ->. subst deleted. unfold pruneExpiredContexts, expiredForPruning.
    cbn [snd take_limit]. rewrite length_take. lia.
  - intros Hcap. split.
    + intros r. by apply prune_all_expired.
    + intros limit'. by apply prune_again.
Qed.

(** With a limit of 5 both EXPIRED rows of the sample go in the first run
    and a second run deletes nothing. *)
Lemma pruneExpiredContexts_safe_witness :
  (expiredE1 ∉ (pruneExpiredContexts twoExpired (Some 5%nat)).1) /\
  (expiredE2 ∉ (pruneExpiredContexts twoExpired (Some 5%nat)).1) /\
  (pruneExpiredContexts (pruneExpiredContexts twoExpired (Some 5%nat)).1
     (Some 5%nat)).2 = 0%nat.
Proof.
  assert (NoDup (id <$> twoExpired)) as keys.
  { apply (bool_decide_unpack _). vm_compute. exact I. }
  destruct (pruneExpiredContexts_safe twoExpired (Some 5%nat) keys)
    as (_ & _ & _ & _ & _ & _ & _ & Hall).
  destruct Hall as [Hgone Hagain]; [intros n [= <-]; vm_compute; lia|].
  split; [|split].
  - apply (Hgone expiredE1); [|reflexivity]. apply list_elem_of_here.
  - apply (Hgone expiredE2); [|reflexivity].
    do 2 apply list_elem_of_further. apply list_elem_of_here.
  - apply Hagain.
Defined.

(** C4, as stated, fails twice.

    Safety. The statement deletes by the stored tier and never asks
    [calculateMemoryTier]. In the sample, 9000 ms after the epoch,
    [calculateMemoryTier] classifies E1 (accessed 4 seconds earlier) as
    ACTIVE and E2 (never accessed) as ARCHIVED, so no row is classified
    EXPIRED; both are stored as EXPIRED and both are deleted. The same
    happens to a row accessed at the very instant of the run:
    [trackAccess] leaves the stored tier of E1 as it was, and the run
    deletes E1.

    Idempotence. With a limit of 1 the first run deletes one row (E2, its
    [lastAccessed] being [null]) and the second run, with nothing
    accessed or expired in between, deletes the other. *)
Lemma pruneExpiredContexts_as_stated_fails :
  (findById twoExpired "E1" = Some expiredE1 /\
   findById twoExpired "E2" = Some expiredE2 /\
   calculateMemoryTier (snapshot_lastAccessed expiredE1) 9000 = ACTIVE /\
   calculateMemoryTier (snapshot_lastAccessed expiredE2) 9000 = ARCHIVED /\
   (pruneExpiredContexts twoExpired None).2 = 2%nat /\
   findById (pruneExpiredContexts twoExpired None).1 "E1" = None /\
   findById (pruneExpiredContexts twoExpired None).1 "E2" = None) /\
  (snapshot_lastAccessed
     <$> findById (AccessTracking.trackAccess twoExpired "E1" 777) "E1"
     = Some (Some 777) /\
   calculateMemoryTier (Some 777) 777 = ACTIVE /\
   findById
     (pruneExpiredContexts (AccessTracking.trackAccess twoExpired "E1" 777) None).1
     "E1" = None) /\
  ((pruneExpiredContexts twoExpired (Some 1%nat)).2 = 1%nat /\
   findById (pruneExpiredContexts twoExpired (Some 1%nat)).1 "E2" = None /\
   (pruneExpiredContexts (pruneExpiredContexts twoExpired (Some 1%nat)).1
      (Some 1%nat)).2 <> 0%nat).
Proof. vm_compute. repeat split; discriminate. Qed.

End MemoryManagerFacts.

(** ** Layer 3: prediction scores and reasons *)

Module PropagationFacts.
Import Repository Propagation RepositoryFacts Samples.

(** Closes an inequality between two rational constants. *)
Ltac Qconst := unfold Qle, Qlt; cbn; lia.

(** Finds a constant in a list of constants. *)
Ltac listed := repeat first [apply list_elem_of_here | apply list_elem_of_further].

Lemma calculateTemporalScore_values (lastAccessed : option Z) (now : Z) :
  calculateTemporalScore lastAccessed now ∈ [1.0; 0.8; 0.5; 0.3; 0.1]%Q.
Proof.
  unfold calculateTemporalScore. cbn zeta.
  repeat match goal with |- context [Qltb ?a ?b] => destruct (Qltb a b) end;
    listed.
Qed.


Lemma calculateFrequencyScore_values (accessCount : option Z) :
  calculateFrequencyScore accessCount ∈ [1.0; 0.7; 0.4; 0.2]%Q.
Proof.
  unfold calculateFrequencyScore. destruct accessCount as [n|]; [|listed].
  repeat match goal with |- context [?a <=? ?b] => destruct (a <=? b) end;
    listed.
Qed.




(** C3, as the code has it. The causal sub-score is decided in the order
    root cause (1.0), branch point with more than one child (0.8),
    decision (0.9), leaf (0.3), otherwise 0.5: a decision that is not a
    root scores 0.9 when it is not a branch point. *)
Theorem calculateCausalScore_priority (repo : Table) (s : ContextSnapshot) :
  (isRootCause s = true -> calculateCausalScore repo s = 1.0%Q) /\
  (isRootCause s = false -> hasMultipleChildren repo s = true ->
     calculateCausalScore repo s = 0.8%Q) /\
  (isRootCause s = false -> hasMultipleChildren repo s = false ->
     isDecisionNode s = true ->
     calculateCausalScore repo s = 0.9%Q) /\
  (isRootCause s = false -> hasMultipleChildren repo s = false ->
     isDecisionNode s = false -> isLeafNode repo s = true ->
     calculateCausalScore repo s = 0.3%Q) /\
  (isRootCause s = false -> hasMultipleChildren repo s = false ->
     isDecisionNode s = false -> isLeafNode repo s = false ->
     calculateCausalScore repo s = 0.5%Q).
Proof.
  unfold calculateCausalScore.
  repeat split; intros; repeat match goal with H : _ = _ |- _ => rewrite H end;
    reflexivity.
Qed.

(** The decision C at the end of the chain A <- B <- C has no child and
    scores 0.9. *)
Lemma calculateCausalScore_priority_witness :
  calculateCausalScore chainABC snapC = 0.9%Q.
Proof.
  apply (calculateCausalScore_priority chainABC snapC); vm_compute; reflexivity.
Defined.

(** C3, as stated, fails: the decision D is not a root cause, yet with
    its two children it scores 0.8, the score of a branch point. *)
Lemma calculateCausalScore_branching_decision :
  isRootCause snapD = false /\
  isDecisionNode snapD = true /\
  calculateCausalScore branchingDecision snapD = 0.8%Q /\
  ~ (calculateCausalScore branchingDecision snapD == 0.9)%Q.
Proof. vm_compute. repeat split; discriminate. Qed.

Lemma push_if_elem_of (cond : bool) (reason x : string) (reasons : list string) :
  x ∈ push_if cond reason reasons <-> x ∈ reasons \/ (cond = true /\ x = reason).
Proof.
  unfold push_if. destruct cond.
  - rewrite elem_of_app, list_elem_of_singleton. split.
    + intros [H|H]; [by left | right; by split].
    + intros [H|[_ H]]; [by left | by right].
  - split; [by left | intros [H|[H _]]; [exact H | discriminate]].
Qed.

(** The tokens that [calculatePropagationReasons] can give, each with its
    own condition; no condition depends on another. *)
Lemma calculatePropagationReasons_tokens (context : ContextSnapshot) (now : Z)
    (x : string) :
  x ∈ calculatePropagationReasons context now <->
    (x = "recently_accessed" /\
       (hoursSinceAccess (snapshot_lastAccessed context) now < hours 24)%Q) \/
    (x = "causal_chain_root" /\ causedBy <$> causality context = Some None) \/
    (x = "high_access_frequency" /\
       exists n, snapshot_accessCount context = Some n /\ 10 <= n) \/
    (x = "active_memory_tier" /\ snapshot_tier context = Some ACTIVE) \/
    (x = "decision_node" /\ snapshot_actionType context = Some decision).
Proof.
  unfold calculatePropagationReasons. cbn zeta.
  rewrite !push_if_elem_of, elem_of_nil, !bool_decide_eq_true, Qltb_lt.
  assert (from_option (fun n => 10 <=? n) false (snapshot_accessCount context) = true
          <-> exists n, snapshot_accessCount context = Some n /\ 10 <= n) as ->.
  { destruct (snapshot_accessCount context) as [n|]; cbn.
    - rewrite Z.leb_le. split.
      + intros H. exists n. by split.
      + by intros (m & [= <-] & H).
    - split; [discriminate | by intros (m & Hm & _)]. }
  tauto.
Qed.

(** The token [moderate_access_frequency] is never given. *)
Lemma moderate_access_frequency_never (context : ContextSnapshot) (now : Z) :
  "moderate_access_frequency" ∉ calculatePropagationReasons context now.
Proof.
  rewrite calculatePropagationReasons_tokens.
  intros [[? _]|[[? _]|[[? _]|[[? _]|[? _]]]]]; discriminate.
Qed.

(** C9. For a snapshot accessed 7 times (a count in 5..9)
    [calculatePropagationReasons] gives the tokens of the other checks
    and no [moderate_access_frequency]. *)
Theorem calculatePropagationReasons_moderate_missing :
  snapshot_accessCount sevenTimes = Some 7 /\
  calculatePropagationReasons sevenTimes 60000
    = ["recently_accessed"; "causal_chain_root"; "active_memory_tier"].
Proof. vm_compute. split; reflexivity. Qed.


Section UpdateLoop.

Variable repo : Table.
Variable staleThreshold : Q.
Variable now : Z.


Let step : Table * nat -> ContextSnapshot -> Table * nat :=
  fun '(store, updated) ctx =>
    if isPredictionStale (snapshot_lastPredicted ctx) staleThreshold now
    then (save store (refreshPrediction repo now ctx), S updated)
    else (store, updated).


End UpdateLoop.





End PropagationFacts.

(** ** Queries of the repository *)

Module QueryFacts.
Import Repository HighValue RepositoryFacts Samples MoreSamples.

(** Membership of a row in a list of rows given in full. *)
Ltac in_rows := vm_compute; repeat first [apply list_elem_of_here | apply list_elem_of_further].

Ltac not_in_rows :=
  vm_compute;
  let H := fresh "H" in
  intros H;
  repeat (apply elem_of_cons in H as [H|H]; [discriminate H|]);
  by apply elem_of_nil in H.

#[local] Instance newest_first_trans : Transitive newest_first.
Proof. intros a b c. unfold newest_first. lia. Qed.

#[local] Instance newest_first_total : Total newest_first.
Proof. intros a b. unfold newest_first. lia. Qed.

#[local] Instance score_ge_trans : Transitive score_ge.
Proof.
  intros [x|] [y|] [z|]; simpl; try tauto.
  intros Hyx Hzy. by apply (Qle_trans z y x).
Qed.

#[local] Instance score_ge_total : Total score_ge.
Proof.
  intros [x|] [y|]; simpl; try tauto.
  destruct (Qlt_le_dec x y) as [Hlt|Hle]; [right; by apply Qlt_le_weak | by left].
Qed.

#[local] Instance highest_score_first_trans : Transitive highest_score_first.
Proof. intros a b c. unfold highest_score_first. apply score_ge_trans. Qed.

#[local] Instance highest_score_first_total : Total highest_score_first.
Proof. intros a b. unfold highest_score_first. apply score_ge_total. Qed.

(** Of a sorted list, what [take] keeps comes before what it leaves. *)
Lemma take_sorted_first {A : Type} (R : relation A) (l : list A) (n : nat) (x y : A) :
  StronglySorted R l -> x ∈ take n l -> y ∈ l -> y ∉ take n l -> R x y.
Proof.
  intros Hsorted Hx Hy Hleft.
  rewrite <- (take_drop n l) in Hsorted, Hy.
  apply elem_of_app in Hy as [Hy|Hy]; [contradiction|].
  by eapply StronglySorted_app_1_elem_of.
Qed.

Lemma take_sorted {A : Type} (R : relation A) (l : list A) (n : nat) :
  StronglySorted R l -> StronglySorted R (take n l).
Proof.
  intros Hsorted. rewrite <- (take_drop n l) in Hsorted.
  by apply StronglySorted_app in Hsorted as (_ & Htake & _).
Qed.

(** X1. [findByProject] returns rows of the project only, newest first; with
    a limit it returns that many rows when the project has them, and
    every row of the project that it leaves out is at most as recent as
    each row it returns. *)
Theorem findByProject_newest_first (repo : Table) (p : string) (limit : option nat) :
  let found := findByProject repo p limit in
  let ofProject := filter (fun r => project r = p) repo in
  (forall r, r ∈ found -> r ∈ repo /\ project r = p) /\
  StronglySorted newest_first found /\
  length found = from_option (fun n => min n (length ofProject)) (length ofProject) limit /\
  (forall r k, r ∈ found -> k ∈ repo -> project k = p -> k ∉ found ->
     timestamp k <= timestamp r).
Proof.
  intros found ofProject.
  pose proof (StronglySorted_merge_sort newest_first ofProject) as Hsorted.
  assert (forall r, r ∈ merge_sort newest_first ofProject <-> r ∈ repo /\ project r = p)
    as Hmem.
  { intros r. unfold ofProject.
    rewrite merge_sort_Permutation, list_elem_of_filter. tauto. }
  unfold found, findByProject. fold ofProject.
  destruct limit as [n|]; cbn [take_limit from_option].
  - split; [|split; [|split]].
    + intros r Hr. apply Hmem. by apply subseteq_take in Hr.
    + by apply take_sorted.
    + by rewrite length_take, merge_sort_Permutation.
    + intros r k Hr Hk Hp Hleft.
      eapply (take_sorted_first newest_first); [exact Hsorted | exact Hr | | exact Hleft].
      by apply Hmem.
  - split; [|split; [|split]].
    + intros r Hr. by apply Hmem.
    + exact Hsorted.
    + by rewrite merge_sort_Permutation.
    + intros r k Hr Hk Hp Hleft. exfalso. apply Hleft. by apply Hmem.
Qed.

(** Of the four rows of the sample the two newest are returned: P1,
    created at 10, is left out and is older than P3, created at 30. *)
Lemma findByProject_newest_first_witness :
  timestamp (scored "P1" (Some 0.7%Q) 10) <= timestamp (scored "P3" (Some 0.95%Q) 30).
Proof.
  destruct (findByProject_newest_first scoredFour "demo" (Some 2%nat))
    as (_ & _ & _ & Holder).
  apply Holder.
  - in_rows.
  - in_rows.
  - reflexivity.
  - not_in_rows.
Defined.

(** X2. [getHighValueContexts] returns rows of the project whose score is
    there and at least [minScore] (0.6 when absent), highest score first,
    at most [limit] of them (5 when absent); a row of the project with a
    sufficient score that is left out scores no more than any row
    returned; a row without a score is never returned. *)
Theorem getHighValueContexts_best (repo : Table) (p : string)
    (minScore : option Q) (limit : option nat) :
  let found := getHighValueContexts repo p minScore limit in
  (forall r, r ∈ found ->
     r ∈ repo /\ project r = p /\
     exists q, snapshot_predictionScore r = Some q /\ (default 0.6 minScore <= q)%Q) /\
  StronglySorted highest_score_first found /\
  (length found <= default 5%nat limit)%nat /\
  (forall r k, r ∈ found -> k ∈ repo -> project k = p ->
     score_at_least (default 0.6%Q minScore) k -> k ∉ found ->
     highest_score_first r k).
Proof.
  intros found.
  set (eligible := filter (fun r => project r = p /\ score_at_least (default 0.6%Q minScore) r)
                     repo).
  pose proof (StronglySorted_merge_sort highest_score_first eligible) as Hsorted.
  assert (forall r, r ∈ merge_sort highest_score_first eligible <->
                    (project r = p /\ score_at_least (default 0.6%Q minScore) r) /\ r ∈ repo)
    as Hmem.
  { intros r. unfold eligible. by rewrite merge_sort_Permutation, list_elem_of_filter. }
  unfold found, getHighValueContexts. fold eligible.
  split; [|split; [|split]].
  - intros r Hr. apply subseteq_take, Hmem in Hr as [[Hp Hscore] Hr].
    split; [exact Hr|]. split; [exact Hp|].
    unfold score_at_least in Hscore.
    destruct (snapshot_predictionScore r) as [q|]; [eauto | contradiction].
  - by apply take_sorted.
  - rewrite length_take. lia.
  - intros r k Hr Hk Hp Hscore Hleft.
    eapply (take_sorted_first highest_score_first);
      [exact Hsorted | exact Hr | | exact Hleft].
    by apply Hmem.
Qed.

(** With a minimum of 0.5 and a limit of 2, P3 (0.95) is returned and P4
    (0.5) is left out. *)
Lemma getHighValueContexts_best_witness :
  highest_score_first (scored "P3" (Some 0.95%Q) 30) (scored "P4" (Some 0.5%Q) 20).
Proof.
  destruct (getHighValueContexts_best scoredFour "demo" (Some 0.5%Q) (Some 2%nat))
    as (_ & _ & _ & Hbest).
  apply Hbest.
  - in_rows.
  - in_rows.
  - reflexivity.
  - vm_compute. discriminate.
  - not_in_rows.
Defined.

End QueryFacts.

(** ** The tier as time passes *)

Module TierFacts.
Import MemoryManager AccessTracking.

(** The tier of a known access time, by the milliseconds elapsed. *)
Lemma calculateMemoryTier_ms (t now : Z) :
  calculateMemoryTier (Some t) now =
    if now - t <? 3600000 then ACTIVE
    else if now - t <? 86400000 then RECENT
    else if now - t <? 2592000000 then ARCHIVED
    else EXPIRED.
Proof.
  unfold calculateMemoryTier. cbn zeta. change (24 * 30) with 720.
  repeat match goal with
  | |- context [Qltb (hoursBetween ?a ?b) (hours ?n)] =>
      let E := fresh "E" in
      destruct (Qltb (hoursBetween a b) (hours n)) eqn:E;
      [apply Qltb_lt, hoursBetween_lt in E | apply Qltb_ge, hoursBetween_le in E]
  end;
  repeat match goal with
  | |- context [?x <? ?y] => destruct (Z.ltb_spec x y)
  end;
  try reflexivity; lia.
Qed.

Lemma calculateMemoryTier_expired (t now : Z) :
  (hours 720 <= hoursBetween t now)%Q -> calculateMemoryTier (Some t) now = EXPIRED.
Proof.
  intros Hold. apply hoursBetween_le in Hold. rewrite calculateMemoryTier_ms.
  repeat match goal with
  | |- context [?x <? ?y] => destruct (Z.ltb_spec x y)
  end;
  try reflexivity; lia.
Qed.

End TierFacts.

(** ** Access tracking, loading and expiry *)

Module AccessFacts.
Import Repository MemoryManager AccessTracking RepositoryFacts Samples MoreSamples.

(** Reading a table after an update of its rows that keeps their ids. *)
Lemma findById_map (f : ContextSnapshot -> ContextSnapshot) (repo : Table) (i : string) :
  (forall r, id (f r) = id r) ->
  findById (map f repo) i = f <$> findById repo i.
Proof.
  intros Hid. unfold findById.
  induction repo as [|r repo IH]; [reflexivity|].
  cbn [map find]. rewrite Hid. by destruct (bool_decide (id r = i)).
Qed.

Lemma findById_None_no_row (repo : Table) (i : string) (r : ContextSnapshot) :
  findById repo i = None -> r ∈ repo -> id r <> i.
Proof.
  unfold findById. intros Hnone Hr Hid. apply list_elem_of_In in Hr.
  eapply find_none in Hnone; [|exact Hr]. by rewrite bool_decide_eq_true_2 in Hnone.
Qed.

Lemma findById_updateAccessTracking (repo : Table) (snapshotId i : string) (now : Z) :
  findById (updateAccessTracking repo snapshotId now) i =
    (fun r => if bool_decide (id r = snapshotId)
              then withMemory r (mkMemory (tier (rowMemory r)) (Some now)
                                   (accessCount (rowMemory r) + 1))
              else r) <$> findById repo i.
Proof.
  unfold updateAccessTracking. apply findById_map.
  intros r. by destruct (bool_decide (id r = snapshotId)).
Qed.

Lemma findById_updateTier (repo : Table) (snapshotId i : string) (t : MemoryTier) :
  findById (updateTier repo snapshotId t) i =
    (fun r => if bool_decide (id r = snapshotId)
              then withMemory r (mkMemory t (lastAccessed (rowMemory r))
                                   (accessCount (rowMemory r)))
              else r) <$> findById repo i.
Proof.
  unfold updateTier. apply findById_map.
  intros r. by destruct (bool_decide (id r = snapshotId)).
Qed.

Lemma findById_trackAccess_other (repo : Table) (snapshotId i : string) (now : Z) :
  i <> snapshotId ->
  findById (trackAccess repo snapshotId now) i = findById repo i.
Proof.
  intros Hi. unfold trackAccess. rewrite findById_updateAccessTracking.
  destruct (findById repo i) as [r|] eqn:Hfind; [|reflexivity].
  apply findById_Some in Hfind as [_ Hid]. cbn.
  by rewrite bool_decide_eq_false_2 by congruence.
Qed.

Lemma findById_trackAccess_hit (repo : Table) (snapshotId : string) (now : Z)
    (r : ContextSnapshot) (m : Memory) :
  findById repo snapshotId = Some r ->
  memory r = Some m ->
  findById (trackAccess repo snapshotId now) snapshotId
    = Some (withMemory r (mkMemory (tier m) (Some now) (accessCount m + 1))).
Proof.
  intros Hfind Hm. unfold trackAccess.
  rewrite findById_updateAccessTracking, Hfind. cbn.
  apply findById_Some in Hfind as [_ Hid].
  rewrite bool_decide_eq_true_2 by exact Hid.
  unfold rowMemory. by rewrite Hm.
Qed.

(** X3. [trackAccess] keeps the keys of the table and every row of another
    id; when no row has the id it changes nothing; on the row of the id it
    sets [lastAccessed] to the time of the access and adds one to
    [accessCount], and leaves the stored tier as it was. *)
Theorem trackAccess_effect (repo : Table) (snapshotId : string) (now : Z) :
  id <$> trackAccess repo snapshotId now = id <$> repo /\
  (forall i, i <> snapshotId ->
     findById (trackAccess repo snapshotId now) i = findById repo i) /\
  (findById repo snapshotId = None -> trackAccess repo snapshotId now = repo) /\
  (forall r m, findById repo snapshotId = Some r -> memory r = Some m ->
     findById (trackAccess repo snapshotId now) snapshotId
       = Some (withMemory r (mkMemory (tier m) (Some now) (accessCount m + 1)))).
Proof.
  unfold trackAccess. split; [|split; [|split]].
  - unfold updateAccessTracking. rewrite <- list_fmap_compose.
    apply list_fmap_ext. intros _ r _. cbn.
    by destruct (bool_decide (id r = snapshotId)).
  - intros i Hi. by apply findById_trackAccess_other.
  - intros Hnone. unfold updateAccessTracking.
    rewrite <- (list_fmap_id repo) at 2. apply list_fmap_ext. intros k r Hr.
    apply list_elem_of_lookup_2 in Hr.
    by rewrite bool_decide_eq_false_2 by by eapply findById_None_no_row.
  - intros r m Hfind Hm. by apply findById_trackAccess_hit.
Qed.

Lemma trackAccess_effect_witness :
  findById (trackAccess twoExpired "E1" 777) "E1"
    = Some (withMemory (snap "E1" None (Some (mkMemory EXPIRED (Some 5000) 1)))
              (mkMemory EXPIRED (Some 777) 2)) /\
  findById (trackAccess twoExpired "E1" 777) "K" = findById twoExpired "K".
Proof.
  destruct (trackAccess_effect twoExpired "E1" 777) as (_ & Hother & _ & Hrow).
  split.
  - apply (Hrow _ (mkMemory EXPIRED (Some 5000) 1)); reflexivity.
  - apply Hother. discriminate.
Defined.

(** After a pruning without limit no row stored as EXPIRED can be read. *)
Lemma pruned_expired_gone (repo : Table) (i : string) (r : ContextSnapshot) :
  findById repo i = Some r ->
  snapshot_tier r = Some EXPIRED ->
  findById (pruneExpiredContexts repo None).1 i = None.
Proof.
  intros Hfind Hexpired.
  destruct (findById (pruneExpiredContexts repo None).1 i) as [x|] eqn:Hx;
    [|reflexivity].
  exfalso. apply findById_Some in Hx as [Hx Hid].
  apply (MemoryManagerFacts.kept_elem_of repo None) in Hx as [_ Hnot].
  apply Hnot, list_elem_of_fmap. exists r.
  apply findById_Some in Hfind as [Hr Hidr].
  split; [congruence|].
  unfold expiredForPruning. cbn [take_limit].
  by apply MemoryManagerFacts.sorted_elem_of.
Qed.

(** X4. An access does not rescue a row stored as EXPIRED: right after
    [trackAccess] its [lastAccessed] is the time of the access, for which
    [calculateMemoryTier] gives ACTIVE, but its stored tier is still
    EXPIRED and a pruning without limit deletes it. *)
Theorem trackAccess_then_prune (repo : Table) (snapshotId : string)
    (r : ContextSnapshot) (m : Memory) (now : Z) :
  findById repo snapshotId = Some r ->
  memory r = Some m ->
  tier m = EXPIRED ->
  let repo' := trackAccess repo snapshotId now in
  (exists r', findById repo' snapshotId = Some r' /\
              snapshot_lastAccessed r' = Some now /\
              calculateMemoryTier (snapshot_lastAccessed r') now = ACTIVE /\
              snapshot_tier r' = Some EXPIRED) /\
  findById (pruneExpiredContexts repo' None).1 snapshotId = None.
Proof.
  intros Hfind Hm Htier repo'.
  pose proof (findById_trackAccess_hit repo snapshotId now r m Hfind Hm) as Hrow.
  fold repo' in Hrow. split.
  - eexists. split; [exact Hrow|]. cbn. rewrite Htier.
    split; [reflexivity|]. split; [|reflexivity].
    unfold calculateMemoryTier. cbn zeta.
    replace (Qltb (hoursBetween now now) (hours 1)) with true; [reflexivity|].
    symmetry. apply Qltb_lt, hoursBetween_lt. lia.
  - eapply pruned_expired_gone; [exact Hrow|]. cbn. by rewrite Htier.
Qed.

Lemma trackAccess_then_prune_witness :
  findById (pruneExpiredContexts (trackAccess twoExpired "E1" 777) None).1 "E1" = None.
Proof.
  eapply (trackAccess_then_prune twoExpired "E1" _ (mkMemory EXPIRED (Some 5000) 1) 777);
    reflexivity.
Defined.

Lemma loadContextWithTracking_hit (repo : Table) (snapshotId : string)
    (accessTime now : Z) (r : ContextSnapshot) (m : Memory) :
  findById repo snapshotId = Some r ->
  memory r = Some m ->
  let result := loadContextWithTracking repo snapshotId accessTime now in
  result.1 = Some r /\
  findById result.2 snapshotId
    = Some (withMemory r
              (mkMemory (calculateMemoryTier (lastAccessed m) now)
                 (Some accessTime) (accessCount m + 1))) /\
  (forall i, i <> snapshotId -> findById result.2 i = findById repo i).
Proof.
  intros Hfind Hm. unfold loadContextWithTracking. rewrite Hfind. cbn zeta.
  pose proof (findById_trackAccess_hit repo snapshotId accessTime r m Hfind Hm) as Hrow.
  assert (snapshot_lastAccessed r = lastAccessed m) as Hla
    by (unfold snapshot_lastAccessed; by rewrite Hm).
  assert (snapshot_tier r = Some (tier m)) as Htier
    by (unfold snapshot_tier; by rewrite Hm).
  rewrite Hla, Htier. split; [reflexivity|].
  case_bool_decide as Hchanged; cbn [snd].
  - split.
    + rewrite findById_updateTier, Hrow. cbn.
      apply findById_Some in Hfind as [_ Hid].
      by rewrite bool_decide_eq_true_2.
    + intros i Hi.
      rewrite findById_updateTier, findById_trackAccess_other by exact Hi.
      destruct (findById repo i) as [x|] eqn:Hx; [|reflexivity].
      apply findById_Some in Hx as [_ Hid]. cbn.
      by rewrite bool_decide_eq_false_2 by congruence.
  - split; [|intros i Hi; by apply findById_trackAccess_other].
    rewrite Hrow. injection Hchanged as Hsame. by rewrite Hsame.
Qed.

(** X5. [loadContextWithTracking] on an id without a row returns nothing and
    leaves the table alone; on a row it returns the snapshot as it was
    read, and afterwards the row has the time of this access, one more in
    [accessCount], and as stored tier the tier computed from the access
    before this one; rows of other ids are as before. *)
Theorem loadContextWithTracking_effect (repo : Table) (snapshotId : string)
    (accessTime now : Z) :
  (findById repo snapshotId = None ->
     loadContextWithTracking repo snapshotId accessTime now = (None, repo)) /\
  (forall r m, findById repo snapshotId = Some r -> memory r = Some m ->
     let result := loadContextWithTracking repo snapshotId accessTime now in
     result.1 = Some r /\
     findById result.2 snapshotId
       = Some (withMemory r
                 (mkMemory (calculateMemoryTier (lastAccessed m) now)
                    (Some accessTime) (accessCount m + 1))) /\
     (forall i, i <> snapshotId -> findById result.2 i = findById repo i)).
Proof.
  split.
  - unfold loadContextWithTracking. by intros ->.
  - intros r m Hfind Hm. by apply loadContextWithTracking_hit.
Qed.

(** The old context of the sample, stored as ARCHIVED and last accessed
    at the epoch, is loaded 31 days later: it is returned as it was and
    stored as EXPIRED with the new access time. *)
Lemma loadContextWithTracking_effect_witness :
  (loadContextWithTracking oldTable "O" 2678400000 2678400001).1 = Some oldContext /\
  findById (loadContextWithTracking oldTable "O" 2678400000 2678400001).2 "O"
    = Some (withMemory oldContext (mkMemory EXPIRED (Some 2678400000) 5)).
Proof.
  destruct (loadContextWithTracking_effect oldTable "O" 2678400000 2678400001)
    as [_ Hhit].
  destruct (Hhit oldContext (mkMemory ARCHIVED (Some 0) 4)) as (Hret & Hrow & _);
    [reflexivity..|].
  split; [exact Hret | exact Hrow].
Defined.

(** X6. Loading a context that was last accessed 30 days ago or more stamps
    the access and stores the tier EXPIRED, so that a pruning without limit
    right after the load deletes the context just loaded. *)
Theorem load_then_prune (repo : Table) (snapshotId : string)
    (r : ContextSnapshot) (m : Memory) (t accessTime now : Z) :
  findById repo snapshotId = Some r ->
  memory r = Some m ->
  lastAccessed m = Some t ->
  (hours 720 <= hoursBetween t now)%Q ->
  let loaded := loadContextWithTracking repo snapshotId accessTime now in
  loaded.1 = Some r /\
  (exists r', findById loaded.2 snapshotId = Some r' /\
              snapshot_lastAccessed r' = Some accessTime /\
              snapshot_tier r' = Some EXPIRED) /\
  findById (pruneExpiredContexts loaded.2 None).1 snapshotId = None.
Proof.
  intros Hfind Hm Hlast Hold loaded.
  destruct (loadContextWithTracking_hit repo snapshotId accessTime now r m Hfind Hm)
    as (Hret & Hrow & _).
  fold loaded in Hret, Hrow.
  assert (calculateMemoryTier (lastAccessed m) now = EXPIRED) as Htier.
  { rewrite Hlast.
    by apply (TierFacts.calculateMemoryTier_expired t now). }
  rewrite Htier in Hrow. split; [exact Hret|]. split.
  - eexists. split; [exact Hrow|]. split; reflexivity.
  - eapply pruned_expired_gone; [exact Hrow | reflexivity].
Qed.

Lemma load_then_prune_witness :
  findById
    (pruneExpiredContexts
       (loadContextWithTracking oldTable "O" 2678400000 2678400001).2 None).1 "O"
    = None.
Proof.
  eapply (load_then_prune oldTable "O" oldContext (mkMemory ARCHIVED (Some 0) 4) 0
            2678400000 2678400001).
  - reflexivity.
  - reflexivity.
  - reflexivity.
  - apply hoursBetween_le. lia.
Defined.

End AccessFacts.

(** ** Ageing, expiry and staleness *)

Module LifecycleFacts.
Import Repository MemoryManager AccessTracking Propagation RepositoryFacts TierFacts
  Samples MoreSamples.

Ltac by_ms :=
  repeat match goal with
  | |- context [?x <? ?y] => destruct (Z.ltb_spec x y)
  | H : context [?x <? ?y] |- _ => destruct (Z.ltb_spec x y)
  end;
  cbn in *; try reflexivity; try discriminate; try lia.

(** X13. Without a new access a snapshot only moves forward through the tiers
    as time passes, ACTIVE, RECENT, ARCHIVED, EXPIRED, and at the very
    moment of an access its tier is ACTIVE. *)
Theorem calculateMemoryTier_ages (t now later : Z) :
  now <= later ->
  (tierAge (calculateMemoryTier (Some t) now)
     <= tierAge (calculateMemoryTier (Some t) later))%nat /\
  calculateMemoryTier (Some now) now = ACTIVE.
Proof.
  intros Hlater. rewrite !calculateMemoryTier_ms. split; by_ms.
Qed.

Lemma calculateMemoryTier_ages_witness :
  (tierAge (calculateMemoryTier (Some 0%Z) 3600000%Z)
     <= tierAge (calculateMemoryTier (Some 0%Z) 90000000%Z))%nat.
Proof. apply (calculateMemoryTier_ages 0 3600000 90000000). lia. Defined.

(** X14. [isExpired] goes by the creation time and a strict bound: an expired
    snapshot has the tier EXPIRED at that age, and the two differ at
    exactly 30 days, where the tier is EXPIRED and [isExpired] is false. *)
Theorem isExpired_vs_tier (s : ContextSnapshot) (now : Z) :
  (isExpired s now = true -> calculateMemoryTier (Some (timestamp s)) now = EXPIRED) /\
  (calculateMemoryTier (Some (timestamp s)) now = EXPIRED ->
     (isExpired s now = false <-> now - timestamp s = 2592000000)).
Proof.
  unfold isExpired. cbn zeta. rewrite calculateMemoryTier_ms.
  change (30 * 24 * 60 * 60 * 1000) with 2592000000.
  split.
  - intros Hexpired. by_ms.
  - intros Htier. split; intros H; by_ms.
Qed.

(** The old context of the sample, created at the epoch, at 30 days
    sharp: its tier by creation time is EXPIRED, [isExpired] says no. *)
Lemma isExpired_vs_tier_witness :
  isExpired oldContext 2592000000 = false.
Proof.
  destruct (isExpired_vs_tier oldContext 2592000000) as [_ Hedge].
  apply Hedge; reflexivity.
Defined.

(** X15. A prediction that is stale stays stale as time passes, and is stale
    for every smaller threshold. *)
Theorem isPredictionStale_monotone (lastPredicted : option Z)
    (staleThreshold smaller : Q) (now later : Z) :
  now <= later ->
  (smaller <= staleThreshold)%Q ->
  isPredictionStale lastPredicted staleThreshold now = true ->
  isPredictionStale lastPredicted smaller later = true.
Proof.
  intros Hlater Hsmaller. unfold isPredictionStale.
  destruct lastPredicted as [t|]; [|reflexivity]. cbn zeta.
  rewrite !Qgeb_le. intros Hstale.
  apply (Qle_trans _ staleThreshold); [exact Hsmaller|].
  apply (Qle_trans _ (hoursBetween t now)); [exact Hstale|].
  unfold hoursBetween, Qle. cbn. nia.
Qed.

Lemma isPredictionStale_monotone_witness :
  isPredictionStale (Some 0) 12 (100 * 3600000) = true.
Proof.
  apply (isPredictionStale_monotone (Some 0) 24 12 (24 * 3600000) (100 * 3600000)).
  - lia.
  - unfold Qle. cbn. lia.
  - reflexivity.
Defined.

(** X16. For a snapshot with a last access, the reason [recently_accessed]
    is given exactly when the tier of that access is ACTIVE or RECENT, and
    the temporal score is 1.0 exactly when it is ACTIVE. *)
Theorem layers_agree_on_recency (context : ContextSnapshot) (t now : Z) :
  snapshot_lastAccessed context = Some t ->
  ("recently_accessed" ∈ calculatePropagationReasons context now <->
     calculateMemoryTier (Some t) now = ACTIVE \/
     calculateMemoryTier (Some t) now = RECENT) /\
  (calculateTemporalScore (Some t) now = 1.0%Q <->
     calculateMemoryTier (Some t) now = ACTIVE).
Proof.
  intros Hlast. split.
  - rewrite PropagationFacts.calculatePropagationReasons_tokens, Hlast.
    unfold hoursSinceAccess. cbn [from_option].
    rewrite hoursBetween_lt, calculateMemoryTier_ms. split.
    + intros [[_ Hrecent]|[[? _]|[[? _]|[[? _]|[? _]]]]]; try discriminate.
      unfold Datatypes.id in Hrecent. by_ms; auto.
    + intros Htier. left. split; [reflexivity|]. unfold Datatypes.id.
      destruct Htier as [Htier|Htier]; by_ms.
  - unfold calculateTemporalScore, hoursSinceAccess. cbn [from_option]. cbn zeta.
    unfold Datatypes.id. rewrite calculateMemoryTier_ms.
    repeat match goal with
    | |- context [Qltb (hoursBetween ?a ?b) (hours ?n)] =>
        let E := fresh "E" in
        destruct (Qltb (hoursBetween a b) (hours n)) eqn:E;
        [apply Qltb_lt, hoursBetween_lt in E | apply Qltb_ge, hoursBetween_le in E]
    end;
    split; intros H; by_ms.
Qed.

(** The snapshot of the sample accessed at the epoch, one minute later. *)
Lemma layers_agree_on_recency_witness :
  "recently_accessed" ∈ calculatePropagationReasons sevenTimes 60000.
Proof.
  destruct (layers_agree_on_recency sevenTimes 0 60000) as [Hreason _];
    [reflexivity|].
  apply Hreason. left. reflexivity.
Defined.

End LifecycleFacts.

(** ** Caches in front of the repository *)

Module CacheFacts.
Import Repository HighValue RepositoryFacts Samples MoreSamples.

(** X7. Once the caching repository has answered for an id, it gives the same
    answer for that id against any later state of the table, a cached
    [null] included, and its cache does not change any more. *)
Theorem cached_answer_frozen (cache : gmap string (option ContextSnapshot))
    (db db' : Table) (i : string) :
  let first := CachingRepository.findById cache db i in
  CachingRepository.findById first.2 db' i = (first.1, first.2).
Proof.
  unfold CachingRepository.findById.
  destruct (cache !! i) as [hit|] eqn:Hcache; cbn.
  - by rewrite Hcache.
  - by rewrite lookup_insert_eq.
Qed.

(** A cache all of whose entries are what the table holds. *)
Lemma findAll_coherent (db : Table) (ids : list string) :
  forall cache : gmap string (option ContextSnapshot),
    (forall i v, cache !! i = Some v -> v = findById db i) ->
    CachingRepository.findAll cache ((fun i => (db, i)) <$> ids)
      = findById db <$> ids.
Proof.
  induction ids as [|i ids IH]; intros cache Hcoherent; [reflexivity|].
  cbn [fmap list_fmap CachingRepository.findAll].
  unfold CachingRepository.findById.
  destruct (cache !! i) as [hit|] eqn:Hcache.
  - rewrite (Hcoherent i hit Hcache). f_equal. by apply IH.
  - f_equal. apply IH. intros j v.
    destruct (decide (j = i)) as [->|Hne].
    + rewrite lookup_insert_eq. by intros [= <-].
    + rewrite lookup_insert_ne by done. apply Hcoherent.
Qed.

(** X8. As long as the table does not change, a caching repository that
    started with an empty cache answers every run of lookups as the table
    itself would. *)
Theorem findAll_unchanged_table (db : Table) (ids : list string) :
  CachingRepository.findAll ∅ ((fun i => (db, i)) <$> ids) = findById db <$> ids.
Proof. apply findAll_coherent. intros i v Hempty. by rewrite lookup_empty in Hempty. Qed.

Lemma prefetch_lookup (highValue : Table) :
  forall (cache : gmap string ContextSnapshot) (i : string) (c : ContextSnapshot),
    fold_left (fun cache context => <[id context := context]> cache) highValue cache !! i
      = Some c ->
    (c ∈ highValue /\ id c = i) \/ cache !! i = Some c.
Proof.
  induction highValue as [|x highValue IH]; intros cache i c Hlookup; [by right|].
  cbn [fold_left] in Hlookup. apply IH in Hlookup as [[Hin Hid]|Hlookup].
  - left. split; [by right | exact Hid].
  - destruct (decide (id x = i)) as [Hx|Hx].
    + subst i. rewrite lookup_insert_eq in Hlookup. injection Hlookup as <-.
      left. split; [by left | reflexivity].
    + rewrite lookup_insert_ne in Hlookup by done. by right.
Qed.

(** X9. With the high-value contexts of a table pre-fetched, [getContext]
    over that table, keyed by id, returns for every id what the table
    holds, whether the id was pre-fetched or not. *)
Theorem getContext_prefetched (repo : Table) (p : string)
    (minScore : option Q) (limit : option nat) (i : string) :
  NoDup (id <$> repo) ->
  getContext (prefetch (getHighValueContexts repo p minScore limit)) (findById repo) i
    = findById repo i.
Proof.
  intros Hkeys. unfold getContext, prefetch.
  destruct (fold_left _ _ _ !! i) as [c|] eqn:Hcache; [|reflexivity].
  apply prefetch_lookup in Hcache as [[Hin <-]|Hempty].
  - symmetry. apply findById_elem_of; [exact Hkeys|].
    unfold getHighValueContexts in Hin. apply subseteq_take in Hin.
    rewrite merge_sort_Permutation in Hin.
    by apply list_elem_of_filter in Hin as [_ Hin].
  - by rewrite lookup_empty in Hempty.
Qed.

Lemma getContext_prefetched_witness :
  getContext (prefetch (getHighValueContexts scoredFour "demo" None None))
    (findById scoredFour) "P3"
    = findById scoredFour "P3".
Proof.
  apply (getContext_prefetched scoredFour "demo" None None "P3").
  apply (bool_decide_unpack _). vm_compute. exact I.
Defined.

End CacheFacts.

(** ** More on causal chains *)

Module ChainFacts.
Import Repository Causality ChainShape RepositoryFacts CausalityFacts Samples.

Lemma chain_loop_ok (repo : Table) (fuel : nat) :
  forall (chain : list CausalChainNode) (visited : gset string)
         (currentId : option string) (d : nat) (result : list CausalChainNode),
    chain_loop fuel repo chain visited currentId d = Some result ->
    chain_ok repo visited currentId chain ->
    exists visited' currentId', chain_ok repo visited' currentId' result.
Proof.
  induction fuel as [|fuel IH]; intros chain visited currentId d result Hrun Hok;
    [discriminate|].
  cbn [chain_loop] in Hrun.
  destruct currentId as [cid|]; [|injection Hrun as <-; eauto].
  destruct (truthy cid && negb (bool_decide (cid ∈ visited))) eqn:Hguard;
    [|injection Hrun as <-; eauto].
  apply loop_guard_true in Hguard as [_ Hfresh].
  destruct (findById repo cid) as [snap|] eqn:Hfind; [|injection Hrun as <-; eauto].
  eapply IH; [exact Hrun|]. clear IH Hrun.
  destruct Hok as (Hmarked & Hdistinct & Hrows & Hlinked & Hhead).
  pose proof (findById_Some _ _ _ Hfind) as [_ Hid].
  split; [|split; [|split; [|split]]].
  - intros n Hn. apply elem_of_cons in Hn as [->|Hn]; cbn.
    + rewrite Hid. apply elem_of_union_l. by apply elem_of_singleton.
    + apply elem_of_union_r. by apply Hmarked.
  - rewrite fmap_cons. apply NoDup_cons. split; [|exact Hdistinct]. cbn.
    intros Hin. apply list_elem_of_fmap in Hin as (n & Heq & Hn).
    apply Hfresh. rewrite <- Hid, Heq. by apply Hmarked.
  - intros n Hn. apply elem_of_cons in Hn as [->|Hn]; cbn.
    + by rewrite Hid.
    + by apply Hrows.
  - intros [|k] a b Ha Hb; cbn in Ha, Hb.
    + injection Ha as <-. cbn. rewrite Hid. by apply Hhead.
    + by eapply Hlinked.
  - intros n [= <-]. reflexivity.
Qed.

(** X10. Whatever the graph, the chain that [buildCausalChain] returns holds
    no snapshot twice and at most as many nodes as the table has rows;
    each node carries the row stored under its id, and each node after the
    first is caused by the node just before it. *)
Theorem buildCausalChain_well_formed (repo : Table) (snapshotId : string)
    (chain : list CausalChainNode) :
  buildCausalChain repo snapshotId = Some chain ->
  NoDup ((fun n => id (snapshot n)) <$> chain) /\
  (length chain <= length repo)%nat /\
  (forall n, n ∈ chain -> findById repo (id (snapshot n)) = Some (snapshot n)) /\
  (forall k a b, chain !! k = Some a -> chain !! S k = Some b ->
     node_causedBy b = Some (id (snapshot a))).
Proof.
  intros Hrun. unfold buildCausalChain, buildCausalChain_fuel in Hrun.
  apply chain_loop_ok in Hrun as (visited & currentId & Hok).
  - destruct Hok as (_ & Hdistinct & Hrows & Hlinked & _).
    split; [exact Hdistinct|]. split; [|split; [exact Hrows | exact Hlinked]].
    rewrite <- (length_fmap (fun n => id (snapshot n)) chain).
    rewrite <- (size_list_to_set (C := gset string) _ Hdistinct).
    etrans; [|apply size_idsOf]. apply subseteq_size.
    intros i Hi. apply elem_of_list_to_set, list_elem_of_fmap in Hi as (n & -> & Hn).
    eapply findById_idsOf. by apply Hrows.
  - split; [|split; [|split; [|split]]].
    + intros n Hn. by apply elem_of_nil in Hn.
    + constructor.
    + intros n Hn. by apply elem_of_nil in Hn.
    + intros k a b Ha. discriminate.
    + intros n Hn. discriminate.
Qed.

Lemma buildCausalChain_well_formed_witness :
  exists chain, buildCausalChain cycleXY "X" = Some chain /\ (length chain <= 2)%nat.
Proof.
  eexists. split; [vm_compute; reflexivity|].
  eapply (buildCausalChain_well_formed cycleXY "X"). vm_compute. reflexivity.
Defined.

(** The loop of the domain-layer listing on a resolvable path. *)
Lemma domain_loop_backward_chain (repo : Table) (i : string)
    (path : list ContextSnapshot) :
  backward_chain repo i path ->
  forall (fuel : nat) (chain : list DomainLayer.ChainEntry),
    (length path < fuel)%nat ->
    DomainLayer.chain_loop fuel repo chain (Some i)
      = Some (rev (imap (fun k s => DomainLayer.mkEntry s (length chain + k)) path)
                ++ chain).
Proof.
  induction 1 as [i s Htruthy Hfind Hroot | i parent s rest Htruthy Hfind Hparent Hrest IH];
    intros fuel chain Hfuel;
    (destruct fuel as [|fuel]; [cbn in Hfuel; lia|]);
    cbn [DomainLayer.chain_loop]; rewrite Htruthy, Hfind.
  - rewrite Hroot. destruct fuel as [|fuel]; [cbn in Hfuel; lia|].
    cbn. by rewrite Nat.add_0_r.
  - rewrite Hparent, IH by (cbn in Hfuel; lia).
    rewrite imap_cons. cbn [rev length]. rewrite <- app_assoc, Nat.add_0_r. cbn [app].
    do 3 f_equal. apply imap_ext. intros k x _. cbn. f_equal. lia.
Qed.

(** X11. On an acyclic, fully resolvable backward chain the domain-layer
    listing of [buildCausalChain], which has no visited set and takes
    [chain.length] as depth, returns the snapshots and depths that the
    service's [buildCausalChain] returns, as soon as it may run one
    iteration more than the chain is long. *)
Theorem domain_listing_agrees (repo : Table) (snapshotId : string)
    (path : list ContextSnapshot) (fuel : nat) :
  backward_chain repo snapshotId path ->
  NoDup (id <$> path) ->
  (length path < fuel)%nat ->
  exists chain : list CausalChainNode,
    buildCausalChain repo snapshotId = Some chain /\
    DomainLayer.buildCausalChain fuel repo snapshotId
      = Some (DomainLayer.entryOf <$> chain).
Proof.
  intros Hpath Hdistinct Hfuel.
  exists (rev (nodesFrom 0 path)). split; [by apply buildCausalChain_acyclic|].
  unfold DomainLayer.buildCausalChain.
  rewrite (domain_loop_backward_chain repo snapshotId path Hpath fuel []) by exact Hfuel.
  rewrite app_nil_r. f_equal.
  change (DomainLayer.entryOf <$> rev (nodesFrom 0 path))
    with (map DomainLayer.entryOf (rev (nodesFrom 0 path))).
  rewrite map_rev. f_equal. unfold nodesFrom.
  change (map DomainLayer.entryOf) with (fmap (M := list) DomainLayer.entryOf).
  rewrite fmap_imap. apply imap_ext. intros k x _. reflexivity.
Qed.

Lemma domain_listing_agrees_witness :
  exists chain : list CausalChainNode,
    buildCausalChain chainABC "C" = Some chain /\
    DomainLayer.buildCausalChain 4 chainABC "C" = Some (DomainLayer.entryOf <$> chain).
Proof.
  apply (domain_listing_agrees chainABC "C" [snapC; snapB; snapA] 4).
  - apply chainABC_backward.
  - apply (bool_decide_unpack _). vm_compute. exact I.
  - cbn. lia.
Defined.

(** X12. Without the visited set nothing stops the walk on a cycle: when the
    walk from the starting id only meets ids that resolve to a snapshot
    with a cause, the domain-layer listing of [buildCausalChain] reaches
    every iteration bound. *)
Theorem domain_listing_loops (repo : Table) (endless : string -> Prop)
    (snapshotId : string) :
  (forall j, endless j ->
     truthy j = true /\
     exists s parent, findById repo j = Some s /\
                      or_null (snapshot_causedBy s) = Some parent /\
                      endless parent) ->
  endless snapshotId ->
  forall fuel : nat, DomainLayer.buildCausalChain fuel repo snapshotId = None.
Proof.
  intros Hclosed Hstart fuel. unfold DomainLayer.buildCausalChain.
  generalize (@nil DomainLayer.ChainEntry) as chain. revert snapshotId Hstart.
  induction fuel as [|fuel IH]; intros i Hi chain; [reflexivity|].
  cbn [DomainLayer.chain_loop].
  destruct (Hclosed i Hi) as (Htruthy & s & parent & Hfind & Hparent & Hnext).
  rewrite Htruthy, Hfind, Hparent. by apply IH.
Qed.

(** On the cycle X <- Y <- X the listing is still running after a
    thousand iterations. *)
Lemma domain_listing_loops_witness :
  DomainLayer.buildCausalChain 1000 cycleXY "X" = None.
Proof.
  apply (domain_listing_loops cycleXY (fun j => j = "X" \/ j = "Y") "X").
  - intros j [-> | ->]; (split; [reflexivity|]).
    + eexists _, "Y". split; [vm_compute; reflexivity|]. split; [reflexivity | by right].
    + eexists _, "X". split; [vm_compute; reflexivity|]. split; [reflexivity | by left].
  - by left.
Defined.

End ChainFacts.

(** ** The playground player *)

Module PlaygroundFacts.
Import Playground.

Section Player.

Variable Message : Type.
Implicit Types (st : Player Message) (sc : Scenario Message).

(** X19. "Next Step" is offered exactly when a message of the selected
    scenario is still hidden. *)
Theorem canAdvance_iff_hidden st sc :
  selectedScenario st = Some sc ->
  (canAdvance st = true <->
   (length (visibleMessages st) < length (messages sc))%nat).
Proof.
  intros Hsel. unfold canAdvance, visibleMessages. rewrite Hsel.
  rewrite Z.ltb_lt, length_take. lia.
Qed.

(** X20. When "Next Step" is offered, a click and its callback show exactly
    one more message, the next of the scenario, and leave the player idle
    on the same scenario. *)
Theorem step_shows_next st sc :
  selectedScenario st = Some sc ->
  canAdvance st = true ->
  exists m,
    messages sc !! S (currentMessageIndex st) = Some m /\
    visibleMessages (step st) = visibleMessages st ++ [m] /\
    selectedScenario (step st) = Some sc /\
    isPlaying (step st) = false.
Proof.
  intros Hsel Hadvance. unfold step, nextMessage. rewrite Hadvance. cbn.
  unfold canAdvance in Hadvance. rewrite Hsel in Hadvance.
  apply Z.ltb_lt in Hadvance.
  destruct (lookup_lt_is_Some_2 (messages sc) (S (currentMessageIndex st))) as [m Hm];
    [lia|].
  exists m. split; [exact Hm|]. split; [|split; [exact Hsel | reflexivity]].
  unfold visibleMessages. cbn. rewrite Hsel. by apply take_S_r.
Qed.

Lemma iter_step sc (k : nat) :
  (S k <= length (messages sc))%nat ->
  Nat.iter k step (mkPlayer (Some sc) 0 false) = mkPlayer (Some sc) k false.
Proof.
  induction k as [|k IH]; intros Hk; [reflexivity|].
  rewrite Nat.iter_succ, IH by lia.
  unfold step, nextMessage, canAdvance. cbn.
  replace (Z.of_nat k <? Z.of_nat (length (messages sc)) - 1) with true; [reflexivity|].
  symmetry. apply Z.ltb_lt. lia.
Qed.

(** X21. From a scenario just selected, one click on "Next Step" less than it
    has messages, each with its callback, shows the whole scenario, and
    "Next Step" is then no longer offered and a further step changes
    nothing. *)
Theorem play_through sc st :
  let final := Nat.iter (length (messages sc) - 1) step (selectScenario sc st) in
  visibleMessages final = messages sc /\
  canAdvance final = false /\
  step final = final.
Proof.
  cbn zeta. unfold selectScenario.
  destruct (messages sc) as [|m rest] eqn:Hmessages.
  - cbn. unfold visibleMessages, step, nextMessage, canAdvance. cbn.
    rewrite Hmessages. by cbn.
  - cbn [length]. rewrite Nat.sub_1_r. cbn [Nat.pred].
    rewrite iter_step by (rewrite Hmessages; cbn; lia).
    assert (canAdvance (mkPlayer (Some sc) (length rest) false) = false) as Hdone.
    { unfold canAdvance. cbn. rewrite Hmessages. cbn [length].
      apply Z.ltb_ge. lia. }
    split; [|split; [exact Hdone|]].
    + unfold visibleMessages. cbn. rewrite Hmessages.
      apply take_ge. cbn. lia.
    + unfold step, nextMessage. by rewrite Hdone.
Qed.

End Player.

(** A scenario of three messages at its first message. *)
Lemma canAdvance_iff_hidden_witness :
  canAdvance (mkPlayer (Some (mkScenario "s" "i" "t" "d" "c" [1%nat; 2%nat; 3%nat])) 0 false)
    = true.
Proof.
  eapply canAdvance_iff_hidden; [reflexivity|]. cbn. lia.
Defined.

Lemma step_shows_next_witness :
  exists m : nat,
    visibleMessages
      (step (mkPlayer (Some (mkScenario "s" "i" "t" "d" "c" [1%nat; 2%nat; 3%nat])) 0 false))
    = [1%nat] ++ [m].
Proof.
  destruct (step_shows_next nat
              (mkPlayer (Some (mkScenario "s" "i" "t" "d" "c" [1%nat; 2%nat; 3%nat])) 0 false)
              (mkScenario "s" "i" "t" "d" "c" [1%nat; 2%nat; 3%nat]))
    as (m & _ & Hvisible & _); [reflexivity..|].
  exists m. exact Hvisible.
Defined.

End PlaygroundFacts.

(** ** Statistics and scores across operations *)

Module ScoreFacts.
Import Repository MemoryManager AccessTracking Propagation RepositoryFacts
  AccessFacts Samples MoreSamples.

Lemma tierCount_sum (contexts : Table) :
  (tierCount ACTIVE contexts + tierCount RECENT contexts
   + tierCount ARCHIVED contexts + tierCount EXPIRED contexts)%nat
  = length (filter (fun c => is_Some (memory c)) contexts).
Proof.
  unfold tierCount, snapshot_tier.
  induction contexts as [|c contexts IH]; [reflexivity|].
  rewrite !filter_cons.
  destruct (memory c) as [[[] la n]|]; cbn;
    repeat (case_decide;
            try congruence;
            try match goal with
                | H : ~ is_Some (Some _) |- _ => exfalso; apply H; eauto
                | H : is_Some None |- _ => by destruct H
                end);
    cbn [length]; lia.
Qed.

(** X17. [getMemoryStats] never reports more than 1000 snapshots: [total] is
    the number of rows of the project, cut at 1000; the four counters add
    up to the number of returned snapshots that carry a memory facet, so
    to [total] at most. *)
Theorem getMemoryStats_totals (repo : Table) (p : string) :
  let stats := getMemoryStats repo p in
  total stats = min 1000 (length (filter (fun r => project r = p) repo)) /\
  (active stats + recent stats + archived stats + expired stats)%nat
    = length (filter (fun c => is_Some (memory c))
                (findByProject repo p (Some 1000%nat))) /\
  (active stats + recent stats + archived stats + expired stats <= total stats)%nat.
Proof.
  cbn zeta. unfold getMemoryStats.
  pose proof (MemoryManagerFacts.fold_countTier (findByProject repo p (Some 1000%nat))
                (mkStats (length (findByProject repo p (Some 1000%nat))) 0 0 0 0)) as H.
  cbn zeta in H. destruct H as (Ht & Ha & Hr & Hv & He).
  rewrite Ht, Ha, Hr, Hv, He. cbn [total active recent archived expired Nat.add].
  rewrite tierCount_sum. split; [|split; [reflexivity | apply length_filter]].
  unfold findByProject. cbn [take_limit].
  by rewrite length_take, merge_sort_Permutation.
Qed.

Ltac Qconst := unfold Qle, Qlt; cbn; lia.







End ScoreFacts.
